(** * CAE mesh automation: the [MeshOptimizer] class of
    [CAE_mesh_automation.py], embedded in Rocq.

    NumPy's [float64] is IEEE 754 binary64, which is what Rocq's primitive
    [float] computes with, so every attribute is a [float] and the constants
    of the source ([3.5], [0.6], [1.25], ...) are the same binary64 values
    Python reads.  A [DataFrame] is an ordered table of rows; the objects the
    methods create live in a heap, because [optimize_mesh] works on a copy of
    the cached table and mutates that copy in place.  A method is a function
    from the state of the run to a value or an exception and a new state.
    NumPy's global random generator is an interface: what a seed does to it
    and where a uniform sample lies.  Console output is not modelled. *)

From Stdlib Require Import ZArith List Floats Lia.
From stdpp Require Import base option list gmap strings pretty.

Set Warnings "-inexact-float".
Set Default Proof Using "Type".

Open Scope Z_scope.

(** ** Binary64 helpers *)

Module F64.

(** [x > c], [x < c], [x >= c], [x <= c] of Python on two floats; every
    comparison with a NaN is [false]. *)
Definition gt (x c : float) : bool := PrimFloat.ltb c x.
Definition lt (x c : float) : bool := PrimFloat.ltb x c.
Definition ge (x c : float) : bool := PrimFloat.leb c x.
Definition le (x c : float) : bool := PrimFloat.leb x c.

(** [pd.isna] on a float. *)
Definition isna (x : float) : bool := PrimFloat.is_nan x.

(** [float(n)] for a length or a count. *)
Definition of_nat (n : nat) : float :=
  PrimFloat.of_uint63 (Uint63.of_Z (Z.of_nat n)).

(** [lo <= x <= hi] as a proposition on the computed comparisons. *)
Definition within (lo hi x : float) : Prop :=
  PrimFloat.leb lo x = true ∧ PrimFloat.leb x hi = true.

End F64.

(** ** Data model *)

(** One row of the table built at lines 21-27. *)
Record MeshElementRecord : Type := mkRecord {
  Element_ID : Z;
  Aspect_Ratio : float;
  Jacobian : float;
  Skewness : float;
  Element_Quality : float
}.

(** The four float columns, the keys used in [df['...']]. *)
Inductive Column : Type :=
  | cAspect_Ratio
  | cJacobian
  | cSkewness
  | cElement_Quality.

Definition row_get (c : Column) (r : MeshElementRecord) : float :=
  match c with
  | cAspect_Ratio => Aspect_Ratio r
  | cJacobian => Jacobian r
  | cSkewness => Skewness r
  | cElement_Quality => Element_Quality r
  end.

Definition row_set (c : Column) (v : float) (r : MeshElementRecord)
  : MeshElementRecord :=
  match c with
  | cAspect_Ratio =>
      mkRecord (Element_ID r) v (Jacobian r) (Skewness r) (Element_Quality r)
  | cJacobian =>
      mkRecord (Element_ID r) (Aspect_Ratio r) v (Skewness r) (Element_Quality r)
  | cSkewness =>
      mkRecord (Element_ID r) (Aspect_Ratio r) (Jacobian r) v (Element_Quality r)
  | cElement_Quality =>
      mkRecord (Element_ID r) (Aspect_Ratio r) (Jacobian r) (Skewness r) v
  end.

(** A [pd.DataFrame] with the five columns of the source: its rows in order.
    (The row labels, which [to_csv(index=False)] drops, are not modelled.) *)
Abbreviation DataFrame := (list MeshElementRecord).

(** A [pd.Series]: one column, or a boolean mask. *)
Abbreviation Series A := (list A).

(** ** The pandas operations the methods use *)

(** [df[c]] *)
Definition column (c : Column) (df : DataFrame) : Series float :=
  map (row_get c) df.

(** [s > k] and [s < k], element by element. *)
Definition series_gt (s : Series float) (k : float) : Series bool :=
  map (λ x, F64.gt x k) s.
Definition series_lt (s : Series float) (k : float) : Series bool :=
  map (λ x, F64.lt x k) s.

(** [a | b] on two masks. *)
Definition series_or (a b : Series bool) : Series bool := zip_with orb a b.

(** [df[mask]]: the rows whose mask entry is [True], in the order of [df]. *)
Fixpoint bool_index (df : DataFrame) (mask : Series bool) : DataFrame :=
  match df, mask with
  | r :: df', b :: mask' =>
      if b then r :: bool_index df' mask' else bool_index df' mask'
  | _, _ => []
  end.

(** [df.loc[mask, c] *= k]: the rows selected by [mask] get [c] multiplied. *)
Definition loc_imul (mask : Series bool) (c : Column) (k : float)
    (df : DataFrame) : DataFrame :=
  zip_with (λ (b : bool) r, if b then row_set c (row_get c r * k)%float r else r)
           mask df.

(** [s.clip(lower, upper)] on one value: pandas keeps the value where it is
    missing or not below [lower] and puts [lower] elsewhere, then does the
    same with [upper]; a NaN stays a NaN. *)
Definition clip1 (lower upper x : float) : float :=
  let r := if F64.isna x || F64.ge x lower then x else lower in
  if F64.isna x || F64.le x upper then r else upper.

Definition clip (lower upper : float) (s : Series float) : Series float :=
  map (clip1 lower upper) s.

(** [df[c] = s]: the column replaced, row by row. *)
Definition set_column (c : Column) (s : Series float) (df : DataFrame)
  : DataFrame :=
  zip_with (row_set c) s df.

(** [s.mean()] is pandas' [nanmean]: a zero is put in place of every missing
    value, the values are summed with [values.sum()], and the sum is divided
    by the number of values that are not missing; with nothing to average
    the mean is NaN.

    [values.sum()] is NumPy's [np.add.reduce] on a contiguous [float64]
    array, which does not add from left to right: its inner loop is the
    pairwise summation [pairwise_sum] of NumPy's [loops_utils.h.src],
    transcribed below statement by statement. *)

(** [for (...) res += a[i]] *)
Definition sum_loop (res : float) (a : list float) : float :=
  fold_left (λ acc x, acc + x)%float a res.

(** The eight running sums [r[0]], ..., [r[7]] of the unrolled loop. *)
Record lanes : Type := mkLanes {
  lane0 : float; lane1 : float; lane2 : float; lane3 : float;
  lane4 : float; lane5 : float; lane6 : float; lane7 : float
}.

(** [for (i = 8; i < n - (n % 8); i += 8) { r[0] += a[i + 0]; ... }]: every
    whole block of eight is added lane by lane; what is left, fewer than
    eight values, is returned. *)
Fixpoint add_blocks (r : lanes) (a : list float) : lanes * list float :=
  match a with
  | a0 :: a1 :: a2 :: a3 :: a4 :: a5 :: a6 :: a7 :: rest =>
      add_blocks (mkLanes (lane0 r + a0) (lane1 r + a1) (lane2 r + a2)
                          (lane3 r + a3) (lane4 r + a4) (lane5 r + a5)
                          (lane6 r + a6) (lane7 r + a7))%float
                 rest
  | _ => (r, a)
  end.

(** The body of [pairwise_sum] for [n <= 128].  Below eight values: a plain
    loop that starts from [-0.0].  From eight values on: the first eight
    values start the eight lanes, the whole blocks are added to them, the
    lanes are summed as
    [((r[0] + r[1]) + (r[2] + r[3])) + ((r[4] + r[5]) + (r[6] + r[7]))], and
    the values left over are added one by one. *)
Definition block_sum (a : list float) : float :=
  match a with
  | a0 :: a1 :: a2 :: a3 :: a4 :: a5 :: a6 :: a7 :: rest =>
      let '(r, rest) := add_blocks (mkLanes a0 a1 a2 a3 a4 a5 a6 a7) rest in
      sum_loop (((lane0 r + lane1 r) + (lane2 r + lane3 r))
                + ((lane4 r + lane5 r) + (lane6 r + lane7 r)))%float rest
  | _ => sum_loop neg_zero a
  end.

(** [pairwise_sum(a, n)]: above 128 values the array is cut at
    [n2 = n / 2; n2 -= n2 % 8] and the sums of the two parts are added.  The
    recursion is on a counter that [pairwise_sum] starts at the length, which
    is more than the depth of the cuts ([pairwise_sum_unfold] below). *)
Fixpoint pairwise_sum_rec (depth : nat) (a : list float) : float :=
  let n := length a in
  match depth with
  | S depth' =>
      if (128 <? n)%nat then
        let n2 := (n / 2)%nat in
        let n2 := (n2 - n2 mod 8)%nat in
        (pairwise_sum_rec depth' (take n2 a)
         + pairwise_sum_rec depth' (drop n2 a))%float
      else block_sum a
  | O => block_sum a
  end.

Definition pairwise_sum (a : list float) : float :=
  pairwise_sum_rec (length a) a.

(** [values.sum()]: the identity [0.0] of the reduction plus the pairwise
    sum of the array. *)
Definition series_sum (s : Series float) : float :=
  (0 + pairwise_sum s)%float.

Definition series_mean (s : Series float) : float :=
  let values := map (λ x, if F64.isna x then 0%float else x) s in
  let count := length (List.filter (λ x, negb (F64.isna x)) s) in
  match count with
  | O => PrimFloat.nan
  | _ => (series_sum values / F64.of_nat count)%float
  end.

(** ** NumPy's global random generator *)

(** [np.random.seed] and [np.random.uniform] act on one global generator
    (a Mersenne Twister inside NumPy).  Its algorithm is NumPy's, so the
    generator is an interface: the state a seed puts it in, whatever it was
    before, and one sample with the state after it.  NumPy computes a sample
    of [uniform(low, high)] as [low + (high - low) * u] with [u] in [0, 1);
    IEEE 754 operations are monotone, so the sample lies between [low] and
    the float [low + (high - low)], which rounding may reach.  For every
    range this program draws from, [low + (high - low)] is [high] itself. *)
Class NumpyRandom : Type := {
  rng_state : Type;
  seeded : Z → rng_state;
  sample : float → float → rng_state → float * rng_state;
  sample_range : ∀ low high g,
    PrimFloat.is_finite (high - low)%float = true →
    PrimFloat.leb low (low + (high - low))%float = true →
    F64.within low (low + (high - low))%float (sample low high g).1
}.

(** [size] samples, drawn one after the other. *)
Fixpoint samples `{NumpyRandom} (low high : float) (size : nat)
    (g : rng_state) : list float * rng_state :=
  match size with
  | O => ([], g)
  | S n =>
      let '(x, g1) := sample low high g in
      let '(xs, g2) := samples low high n g1 in
      (x :: xs, g2)
  end.

(** ** Exceptions, objects and the state of a run *)

Inductive exn : Type :=
  | ValueError          (* negative dimensions, columns of unequal length *)
  | TypeError           (* subscript of [None] *)
  | ZeroDivisionError   (* [int / int] with a zero divisor *)
  | Dangling.           (* a reference to no object: Python has no such state *)

Inductive outcome (A : Type) : Type :=
  | Ok (a : A)
  | Raise (e : exn).
Arguments Ok {A} a.
Arguments Raise {A} e.

(** References to [DataFrame] objects. *)
Abbreviation ref := positive.

(** The dictionary returned by [analyze_mesh_quality]. *)
Record analysis_report : Type := mkReport {
  Total_Elements : nat;
  Poor_Quality_Elements : nat;
  Percentage_Poor : float;
  Avg_Aspect_Ratio : float;
  Avg_Jacobian : float;
  Avg_Skewness : float;
  Avg_Element_Quality : float
}.

(** The dictionary returned by [compute_optimization_metrics]. *)
Record optimization_metrics : Type := mkMetrics {
  Original_Avg_Quality : float;
  Optimized_Avg_Quality : float;
  Improvement_Percentage : float;
  Computational_Time_Reduction : float
}.

(** The text of a CSV file: the header and one line per row.  How pandas
    prints a float is a parameter [float_repr]. *)
Definition newline : string := String (Ascii.ascii_of_nat 10) EmptyString.

Definition csv_header : string :=
  String.concat ","
    ["Element_ID"; "Aspect_Ratio"; "Jacobian"; "Skewness"; "Element_Quality"]
  +:+ newline.

Definition csv_row (float_repr : float → string) (r : MeshElementRecord)
  : string :=
  String.concat ","
    [pretty (Element_ID r); float_repr (Aspect_Ratio r);
     float_repr (Jacobian r); float_repr (Skewness r);
     float_repr (Element_Quality r)]
  +:+ newline.

Definition csv_text (float_repr : float → string) (df : DataFrame) : string :=
  csv_header +:+ String.concat "" (map (csv_row float_repr) df).

(** [pd.DataFrame({...})] from an id column and four float columns: columns
    of unequal length are a [ValueError]. *)
Fixpoint rows_of_columns (ids : list Z) (a j s q : list float)
  : option DataFrame :=
  match ids, a, j, s, q with
  | [], [], [], [], [] => Some []
  | i :: ids', x :: a', y :: j', z :: s', w :: q' =>
      df ← rows_of_columns ids' a' j' s' q';
      Some (mkRecord i x y z w :: df)
  | _, _, _, _, _ => None
  end.

(** ** The program *)

Section Program.
Context `{NumpyRandom}.

(** How [to_csv] prints a float. *)
Variable float_repr : float → string.

(** What a run can read and change: the two attributes of the
    [MeshOptimizer] object ([self]), the [DataFrame] objects, NumPy's global
    generator and the files of the working directory. *)
Record World : Type := mkWorld {
  num_elements : Z;
  mesh_data : option ref;
  heap : gmap ref DataFrame;
  np_random : rng_state;
  files : gmap string string
}.

(** A method: it ends with a value or an exception, in a new state. *)
Definition M (A : Type) : Type := World → outcome A * World.

#[global] Instance M_ret : MRet M := λ A a w, (Ok a, w).
#[global] Instance M_bind : MBind M := λ A B f m w,
  match m w with
  | (Ok a, w') => f a w'
  | (Raise e, w') => (Raise e, w')
  end.

Definition raise {A} (e : exn) : M A := λ w, (Raise e, w).

(** *** Attributes of [self] *)

Definition self_num_elements : M Z := λ w, (Ok (num_elements w), w).
Definition self_mesh_data : M (option ref) := λ w, (Ok (mesh_data w), w).
Definition set_self_mesh_data (md : option ref) : M unit := λ w,
  (Ok (), mkWorld (num_elements w) md (heap w) (np_random w) (files w)).

(** [MeshOptimizer(num_elements=n)], lines 7-9. *)
Definition MeshOptimizer_init (n : Z) : M unit := λ w,
  (Ok (), mkWorld n None (heap w) (np_random w) (files w)).

(** *** Objects *)

(** A new [DataFrame] object holding [df]. *)
Definition new_frame (df : DataFrame) : M ref := λ w,
  let l := fresh (dom (heap w)) in
  (Ok l, mkWorld (num_elements w) (mesh_data w) (<[l := df]> (heap w))
                 (np_random w) (files w)).

(** The table a reference points to. *)
Definition deref (l : ref) : M DataFrame := λ w,
  match heap w !! l with
  | Some df => (Ok df, w)
  | None => (Raise Dangling, w)
  end.

(** In-place change of the object at [l]. *)
Definition update (l : ref) (f : DataFrame → DataFrame) : M unit := λ w,
  match heap w !! l with
  | Some df =>
      (Ok (), mkWorld (num_elements w) (mesh_data w) (<[l := f df]> (heap w))
                      (np_random w) (files w))
  | None => (Raise Dangling, w)
  end.

(** [self.mesh_data[...]]: subscripting [None] is a [TypeError]. *)
Definition self_mesh : M DataFrame :=
  md ← self_mesh_data;
  match md with
  | Some l => deref l
  | None => raise TypeError
  end.

(** *** NumPy *)

(** [np.random.seed(n)] *)
Definition np_random_seed (n : Z) : M unit := λ w,
  (Ok (), mkWorld (num_elements w) (mesh_data w) (heap w) (seeded n) (files w)).

(** [np.random.uniform(low, high, size)]: a negative size is a
    [ValueError] (negative dimensions are not allowed). *)
Definition np_random_uniform (low high : float) (size : Z) : M (list float) :=
  λ w,
  if size <? 0 then (Raise ValueError, w)
  else
    let '(xs, g) := samples low high (Z.to_nat size) (np_random w) in
    (Ok xs, mkWorld (num_elements w) (mesh_data w) (heap w) g (files w)).

(** [np.random.uniform(low, high)]: one sample. *)
Definition np_random_uniform1 (low high : float) : M float := λ w,
  let '(x, g) := sample low high (np_random w) in
  (Ok x, mkWorld (num_elements w) (mesh_data w) (heap w) g (files w)).

(** [np.arange(start, stop)] on integers; empty when [stop <= start]. *)
Definition np_arange (start stop : Z) : list Z := seqZ start (stop - start).

(** [pd.DataFrame({...})] *)
Definition DataFrame_new (ids : list Z) (a j s q : list float) : M ref :=
  match rows_of_columns ids a j s q with
  | Some df => new_frame df
  | None => raise ValueError
  end.

(** [a / b] on two Python integers (here two lengths). *)
Definition int_truediv (a b : nat) : M float :=
  match b with
  | O => raise ZeroDivisionError
  | _ => mret (F64.of_nat a / F64.of_nat b)%float
  end.

(** [df.to_csv(name, index=False)] *)
Definition write_file (name text : string) : M unit := λ w,
  (Ok (), mkWorld (num_elements w) (mesh_data w) (heap w) (np_random w)
                  (<[name := text]> (files w))).

Definition to_csv (l : ref) (name : string) : M unit :=
  df ← deref l;
  write_file name (csv_text float_repr df).

(** *** [generate_mesh], lines 11-29 *)
Definition generate_mesh : M ref :=
  np_random_seed 42;;
  n ← self_num_elements;
  let element_ids := np_arange 1 (n + 1) in
  aspect_ratios ← np_random_uniform 1.0 5.0 n;
  jacobians ← np_random_uniform 0.3 1.0 n;
  skewness ← np_random_uniform 0.0 0.8 n;
  element_quality ← np_random_uniform 0.4 1.0 n;
  df ← DataFrame_new element_ids aspect_ratios jacobians skewness
                     element_quality;
  set_self_mesh_data (Some df);;
  mret df.

(** [if self.mesh_data is None: self.generate_mesh()], lines 33-34, 57-58 *)
Definition ensure_mesh : M unit :=
  md ← self_mesh_data;
  match md with
  | None => generate_mesh;; mret ()
  | Some _ => mret ()
  end.

(** *** [analyze_mesh_quality], lines 31-53 *)

(** The mask of lines 37-40. *)
Definition poor_mask (df : DataFrame) : Series bool :=
  series_or
    (series_or
       (series_or (series_gt (column cAspect_Ratio df) 3.5)
                  (series_lt (column cJacobian df) 0.5))
       (series_gt (column cSkewness df) 0.6))
    (series_lt (column cElement_Quality df) 0.6).

Definition analyze_mesh_quality : M (analysis_report * ref) :=
  ensure_mesh;;
  df ← self_mesh;
  poor_elements ← new_frame (bool_index df (poor_mask df));
  poor ← deref poor_elements;
  ratio ← int_truediv (length poor) (length df);
  mret (mkReport (length df) (length poor) (ratio * 100)%float
                 (series_mean (column cAspect_Ratio df))
                 (series_mean (column cJacobian df))
                 (series_mean (column cSkewness df))
                 (series_mean (column cElement_Quality df)),
        poor_elements).

(** *** [optimize_mesh], lines 55-72 *)

(** [df.loc[df[c] > k, c] *= factor] (and [<]) on the object at [l]. *)
Definition imul_where (l : ref) (c : Column)
    (cond : Series float → Series bool) (factor : float) : M unit :=
  update l (λ df, loc_imul (cond (column c df)) c factor df).

(** [df[c] = df[c].clip(lower, upper)] on the object at [l]. *)
Definition clip_column (l : ref) (c : Column) (lower upper : float) : M unit :=
  update l (λ df, set_column c (clip lower upper (column c df)) df).

Definition optimize_mesh : M ref :=
  ensure_mesh;;
  df ← self_mesh;
  optimized_mesh ← new_frame df;        (* self.mesh_data.copy() *)
  imul_where optimized_mesh cAspect_Ratio (λ s, series_gt s 3.5) 0.7;;
  imul_where optimized_mesh cJacobian (λ s, series_lt s 0.5) 1.3;;
  imul_where optimized_mesh cSkewness (λ s, series_gt s 0.6) 0.6;;
  imul_where optimized_mesh cElement_Quality (λ s, series_lt s 0.6) 1.25;;
  clip_column optimized_mesh cAspect_Ratio 1.0 4.0;;
  clip_column optimized_mesh cJacobian 0.3 1.0;;
  clip_column optimized_mesh cSkewness 0.0 0.7;;
  clip_column optimized_mesh cElement_Quality 0.5 1.0;;
  mret optimized_mesh.

(** *** [compute_optimization_metrics], lines 74-86 *)

(** Line 79.  The two means are NumPy [float64] scalars, so the division is
    the IEEE 754 one: a zero divisor gives an infinity or a NaN (NumPy warns),
    not an exception. *)
Definition improvement_of (optimized_avg_quality original_avg_quality : float)
  : float :=
  ((optimized_avg_quality - original_avg_quality) / original_avg_quality
   * 100)%float.

Definition compute_optimization_metrics (optimized_mesh : ref)
  : M optimization_metrics :=
  orig ← self_mesh;
  let original_avg_quality := series_mean (column cElement_Quality orig) in
  opt ← deref optimized_mesh;
  let optimized_avg_quality := series_mean (column cElement_Quality opt) in
  let improvement := improvement_of optimized_avg_quality original_avg_quality in
  time_reduction ← np_random_uniform1 18 22;
  mret (mkMetrics original_avg_quality optimized_avg_quality improvement
                  time_reduction).

(** *** [main], lines 89-131 *)

(** The values [main] holds when it ends; the source prints some of them and
    returns nothing. *)
Record main_locals : Type := mkLocals {
  l_mesh_data : ref;
  l_analysis : analysis_report;
  l_poor_elements : ref;
  l_optimized_mesh : ref;
  l_optimization_metrics : optimization_metrics
}.

(** [main] with the element count of line 98 as a parameter. *)
Definition main_with (n : Z) : M main_locals :=
  MeshOptimizer_init n;;
  mesh ← generate_mesh;
  ap ← analyze_mesh_quality;
  optimized_mesh ← optimize_mesh;
  metrics ← compute_optimization_metrics optimized_mesh;
  to_csv mesh "original_mesh_data.csv";;
  to_csv optimized_mesh "optimized_mesh_data.csv";;
  to_csv ap.2 "poor_quality_elements.csv";;
  mret (mkLocals mesh ap.1 ap.2 optimized_mesh metrics).

Definition main : M main_locals := main_with 1000.

(** *** What the methods compute, for the statements below *)

(** The four draws of lines 16-19 from the seeded generator, and the table
    of lines 21-27: they depend on the element count alone. *)
Definition generated (n : Z) : option DataFrame * rng_state :=
  let '(a, g1) := samples 1.0 5.0 (Z.to_nat n) (seeded 42) in
  let '(j, g2) := samples 0.3 1.0 (Z.to_nat n) g1 in
  let '(s, g3) := samples 0.0 0.8 (Z.to_nat n) g2 in
  let '(q, g4) := samples 0.4 1.0 (Z.to_nat n) g3 in
  (rows_of_columns (np_arange 1 (n + 1)) a j s q, g4).

(** The dictionary of lines 43-51. *)
Definition report_of (df poor : DataFrame) : analysis_report :=
  mkReport (length df) (length poor)
           (F64.of_nat (length poor) / F64.of_nat (length df) * 100)%float
           (series_mean (column cAspect_Ratio df))
           (series_mean (column cJacobian df))
           (series_mean (column cSkewness df))
           (series_mean (column cElement_Quality df)).

(** The adjuster run on its own output: the result of a first call becomes
    the cached dataset and [optimize_mesh] is called again. *)
Definition optimize_twice : M (ref * ref) :=
  first ← optimize_mesh;
  set_self_mesh_data (Some first);;
  second ← optimize_mesh;
  mret (first, second).

(** The state [main] starts in: no object yet, a generator in some state [g]
    (NumPy seeds it from the operating system), some files [fs]. *)
Definition boot (g : rng_state) (fs : gmap string string) : World :=
  mkWorld 0 None ∅ g fs.

End Program.

(** * The specification's vocabulary *)

(** The four threshold conditions and what each attribute is scaled by and
    clamped to, as the specification lists them. *)
Definition threshold (c : Column) (x : float) : bool :=
  match c with
  | cAspect_Ratio => F64.gt x 3.5
  | cJacobian => F64.lt x 0.5
  | cSkewness => F64.gt x 0.6
  | cElement_Quality => F64.lt x 0.6
  end.

Definition factor (c : Column) : float :=
  match c with
  | cAspect_Ratio => 0.7
  | cJacobian => 1.3
  | cSkewness => 0.6
  | cElement_Quality => 1.25
  end%float.

Definition lower (c : Column) : float :=
  match c with
  | cAspect_Ratio => 1.0
  | cJacobian => 0.3
  | cSkewness => 0.0
  | cElement_Quality => 0.5
  end%float.

Definition upper (c : Column) : float :=
  match c with
  | cAspect_Ratio => 4.0
  | cJacobian => 1.0
  | cSkewness => 0.7
  | cElement_Quality => 1.0
  end%float.

(** A record is poor when one of the four conditions holds. *)
Definition is_poor (r : MeshElementRecord) : bool :=
  threshold cAspect_Ratio (Aspect_Ratio r)
  || threshold cJacobian (Jacobian r)
  || threshold cSkewness (Skewness r)
  || threshold cElement_Quality (Element_Quality r).

(** Scale when the condition holds, then clamp. *)
Definition scale_value (c : Column) (x : float) : float :=
  if threshold c x then (x * factor c)%float else x.

Definition adjust_value (c : Column) (x : float) : float :=
  clip1 (lower c) (upper c) (scale_value c x).

Definition adjust_row (r : MeshElementRecord) : MeshElementRecord :=
  mkRecord (Element_ID r)
           (adjust_value cAspect_Ratio (Aspect_Ratio r))
           (adjust_value cJacobian (Jacobian r))
           (adjust_value cSkewness (Skewness r))
           (adjust_value cElement_Quality (Element_Quality r)).

(** What lines 62-70 leave in the copy, statement by statement. *)
Definition adjusted (df : DataFrame) : DataFrame :=
  let d1 := loc_imul (series_gt (column cAspect_Ratio df) 3.5)
                     cAspect_Ratio 0.7 df in
  let d2 := loc_imul (series_lt (column cJacobian d1) 0.5) cJacobian 1.3 d1 in
  let d3 := loc_imul (series_gt (column cSkewness d2) 0.6) cSkewness 0.6 d2 in
  let d4 := loc_imul (series_lt (column cElement_Quality d3) 0.6)
                     cElement_Quality 1.25 d3 in
  let d5 := set_column cAspect_Ratio
                       (clip 1.0 4.0 (column cAspect_Ratio d4)) d4 in
  let d6 := set_column cJacobian (clip 0.3 1.0 (column cJacobian d5)) d5 in
  let d7 := set_column cSkewness (clip 0.0 0.7 (column cSkewness d6)) d6 in
  set_column cElement_Quality (clip 0.5 1.0 (column cElement_Quality d7)) d7.

(** One of the four conditions of lines 37-40 holds for the record. *)
Definition meets_a_threshold (r : MeshElementRecord) : Prop :=
  F64.gt (Aspect_Ratio r) 3.5 = true
  ∨ F64.lt (Jacobian r) 0.5 = true
  ∨ F64.gt (Skewness r) 0.6 = true
  ∨ F64.lt (Element_Quality r) 0.6 = true.

(** The ranges the four attributes are drawn from, lines 16-19. *)
Definition in_generation_ranges (r : MeshElementRecord) : Prop :=
  F64.within 1.0 5.0 (Aspect_Ratio r)
  ∧ F64.within 0.3 1.0 (Jacobian r)
  ∧ F64.within 0.0 0.8 (Skewness r)
  ∧ F64.within 0.4 1.0 (Element_Quality r).

(** ** Exact values

    Every finite binary64 number is a whole number of units of [2^-1074],
    the smallest positive one.  The exact value of a float and the exact sum
    of a column, which no rounding enters, are integers in that unit. *)
Definition SFunits (x : spec_float) : Z :=
  match x with
  | S754_finite s m e => (if s then -1 else 1) * (Z.pos m * 2 ^ (e + 1074))
  | _ => 0
  end.

Definition units (x : float) : Z := SFunits (Prim2SF x).

(** A finite float that is zero or positive. *)
Definition SFnonneg (x : spec_float) : bool :=
  match x with
  | S754_zero _ => true
  | S754_finite s _ _ => negb s
  | _ => false
  end.

Definition nonneg (x : float) : bool := SFnonneg (Prim2SF x).

(** The exact sum of a column, in units of [2^-1074]. *)
Definition exact_sum (s : list float) : Z := foldr (λ x acc, units x + acc) 0 s.

Abbreviation all_nonneg := (Forall (λ x : float, nonneg x = true)).

(** [x] is a non-negative number within [k] roundings of the exact
    quantity [v]. *)
Definition near (k : Z) (x : float) (v : Z) : Prop :=
  nonneg x = true ∧ 0 ≤ v ∧ 2 ^ 52 * Z.abs (units x - v) ≤ k * v.

(** The eight lanes hold, between them, [V] within [k] roundings. *)
Definition lanes_near (k : Z) (r : lanes) (V : Z) : Prop :=
  ∃ v0 v1 v2 v3 v4 v5 v6 v7,
    near k (lane0 r) v0 ∧ near k (lane1 r) v1 ∧ near k (lane2 r) v2 ∧ near k (lane3 r) v3
    ∧ near k (lane4 r) v4 ∧ near k (lane5 r) v5 ∧ near k (lane6 r) v6 ∧ near k (lane7 r) v7
    ∧ V = v0 + v1 + v2 + v3 + v4 + v5 + v6 + v7.

(** What [k] right shifts of [M] leave: the quotient, and the round and
    sticky bits of the remainder. *)
Definition shifted (M k : Z) (mrs : shr_record) : Prop :=
  ∃ rem, M = shr_m mrs * 2 ^ k + rem
         ∧ 0 ≤ rem < 2 ^ k
         ∧ 0 ≤ shr_m mrs
         ∧ shr_r mrs = (2 ^ k <=? 2 * rem)
         ∧ shr_s mrs = negb ((rem =? 0) || (2 * rem =? 2 ^ k)).

(** * Properties *)

(** ** Binary64 facts, from the specification of the primitive floats *)

Section FloatFacts.

Lemma SFcompare_refl (s : spec_float) :
  s ≠ S754_nan → SFcompare s s = Some Eq.
Proof.
  destruct s as [b | b | | b m e]; simpl; try done.
  - by destruct b.
  - intros _. rewrite Z.compare_refl.
    assert (Pos.compare_cont Eq m m = Eq) as -> by apply Pos.compare_cont_refl.
    by destruct b.
Qed.

Lemma SFcompare_nan_l (s t : spec_float) c :
  SFcompare s t = Some c → s ≠ S754_nan ∧ t ≠ S754_nan.
Proof. destruct s, t; simpl; try done. Qed.

Lemma is_nan_Prim2SF (x : float) :
  PrimFloat.is_nan x = true ↔ Prim2SF x = S754_nan.
Proof.
  unfold PrimFloat.is_nan. rewrite FloatAxioms.eqb_spec. unfold SFeqb. split.
  - intros Hx. destruct (Prim2SF x) eqn:E; try done;
      rewrite SFcompare_refl in Hx; done.
  - intros ->. done.
Qed.

Lemma is_nan_false_Prim2SF (x : float) :
  PrimFloat.is_nan x = false ↔ Prim2SF x ≠ S754_nan.
Proof.
  rewrite <- is_nan_Prim2SF. destruct (PrimFloat.is_nan x); split; try done.
Qed.

Lemma leb_not_nan (x y : float) :
  PrimFloat.leb x y = true →
  PrimFloat.is_nan x = false ∧ PrimFloat.is_nan y = false.
Proof.
  rewrite FloatAxioms.leb_spec. unfold SFleb. rewrite !is_nan_false_Prim2SF.
  destruct (SFcompare (Prim2SF x) (Prim2SF y)) eqn:E; [|done].
  intros _. eapply SFcompare_nan_l, E.
Qed.

Lemma ltb_not_nan (x y : float) :
  PrimFloat.ltb x y = true →
  PrimFloat.is_nan x = false ∧ PrimFloat.is_nan y = false.
Proof.
  rewrite FloatAxioms.ltb_spec. unfold SFltb. rewrite !is_nan_false_Prim2SF.
  destruct (SFcompare (Prim2SF x) (Prim2SF y)) eqn:E; [|done].
  intros _. eapply SFcompare_nan_l, E.
Qed.

Lemma leb_refl (x : float) :
  PrimFloat.is_nan x = false → PrimFloat.leb x x = true.
Proof.
  rewrite is_nan_false_Prim2SF, FloatAxioms.leb_spec. unfold SFleb.
  intros Hx. by rewrite SFcompare_refl.
Qed.

(** Rounding a positive mantissa never gives a NaN. *)
Lemma shr_1_nonneg (mrs : shr_record) :
  0 ≤ shr_m mrs → 0 ≤ shr_m (shr_1 mrs).
Proof.
  destruct mrs as [m r s]. simpl.
  destruct m as [|p|p]; simpl; [done| |lia].
  intros _. destruct p; simpl; lia.
Qed.

Lemma iter_pos_shr_1_nonneg (p : positive) (mrs : shr_record) :
  0 ≤ shr_m mrs → 0 ≤ shr_m (SpecFloat.iter_pos shr_1 p mrs).
Proof.
  revert mrs. induction p as [p IH | p IH |]; simpl; intros mrs Hm.
  - apply IH, IH, shr_1_nonneg, Hm.
  - apply IH, IH, Hm.
  - apply shr_1_nonneg, Hm.
Qed.

Lemma shr_fexp_nonneg prec emax (m e : Z) (l : location) :
  0 ≤ m → 0 ≤ shr_m (shr_fexp prec emax m e l).1.
Proof.
  intros Hm. unfold shr_fexp, shr.
  assert (0 ≤ shr_m (shr_record_of_loc m l)) as H0.
  { destruct l as [|[]]; simpl; done. }
  destruct (fexp prec emax (Zdigits2 m + e) - e); simpl; try done.
  by apply iter_pos_shr_1_nonneg.
Qed.

Lemma round_nearest_even_nonneg (m : Z) (l : location) :
  0 ≤ m → 0 ≤ round_nearest_even m l.
Proof.
  intros Hm. destruct l as [|[]]; simpl; try lia.
  destruct (Z.even m); lia.
Qed.

Lemma binary_round_aux_not_nan prec emax (sx : bool) (m : positive) (e : Z)
    (l : location) :
  binary_round_aux prec emax sx (Z.pos m) e l ≠ S754_nan.
Proof.
  unfold binary_round_aux.
  pose proof (shr_fexp_nonneg prec emax (Z.pos m) e l ltac:(lia)) as H1.
  destruct (shr_fexp prec emax (Z.pos m) e l) as [mrs1 e1]. simpl in H1.
  pose proof (shr_fexp_nonneg prec emax
                (round_nearest_even (shr_m mrs1) (loc_of_shr_record mrs1))
                e1 loc_Exact
                (round_nearest_even_nonneg _ _ H1)) as H2.
  destruct (shr_fexp prec emax _ e1 loc_Exact) as [mrs2 e2]. simpl in H2.
  destruct (shr_m mrs2) as [|p|p]; [done| |lia].
  by destruct (e2 <=? emax - prec).
Qed.

(** A value that is not a NaN, times a finite constant other than zero, is
    not a NaN. *)
Lemma mul_finite_not_nan (x k : float) s m e :
  Prim2SF k = S754_finite s m e →
  PrimFloat.is_nan x = false →
  PrimFloat.is_nan (x * k) = false.
Proof.
  rewrite !is_nan_false_Prim2SF, FloatAxioms.mul_spec. intros -> Hx.
  unfold SF64mul, SFmul.
  destruct (Prim2SF x) as [b | b | | b mx ex]; try done.
  apply binary_round_aux_not_nan.
Qed.

Lemma not_finite_Prim2SF (r : float) :
  Prim2SF r = S754_nan ∨ (∃ b, Prim2SF r = S754_infinity b) →
  PrimFloat.is_finite r = false.
Proof.
  intros [Hr | [b Hr]]; unfold PrimFloat.is_finite.
  - apply is_nan_Prim2SF in Hr. by rewrite Hr.
  - unfold PrimFloat.is_infinity.
    rewrite FloatAxioms.eqb_spec, abs_spec, Hr. simpl.
    by rewrite orb_true_r.
Qed.

Lemma eqb_zero_Prim2SF (z : float) :
  PrimFloat.eqb z 0 = true → ∃ b, Prim2SF z = S754_zero b.
Proof.
  rewrite FloatAxioms.eqb_spec.
  change (Prim2SF 0) with (S754_zero false). unfold SFeqb.
  destruct (Prim2SF z) as [b | b | | b m e]; simpl; try done.
  - by exists b.
  - by destruct b.
  - by destruct b.
Qed.

(** A quotient by a zero, times a hundred, is an infinity or a NaN. *)
Lemma div_zero_times_100_not_finite (y z : float) :
  PrimFloat.eqb z 0 = true → PrimFloat.is_finite (y / z * 100) = false.
Proof.
  intros [b Hz]%eqb_zero_Prim2SF. apply not_finite_Prim2SF.
  rewrite mul_spec, div_spec, Hz.
  change (Prim2SF 100) with (S754_finite false 7036874417766400 (-46)).
  destruct (Prim2SF y) as [c | c | | c m e]; simpl; eauto.
Qed.

(** *** Clipping *)

Lemma clip1_within (lo hi x : float) :
  PrimFloat.leb lo hi = true →
  PrimFloat.is_nan x = false →
  F64.within lo hi (clip1 lo hi x).
Proof.
  intros Hlh Hx. destruct (leb_not_nan _ _ Hlh) as [Hlo Hhi].
  apply leb_refl in Hlo, Hhi.
  unfold clip1, F64.within, F64.isna, F64.ge, F64.le. rewrite Hx. simpl.
  destruct (PrimFloat.leb lo x) eqn:E1, (PrimFloat.leb x hi) eqn:E2; done.
Qed.

Lemma clip1_nan (lo hi x : float) :
  PrimFloat.is_nan x = true → clip1 lo hi x = x.
Proof. intros Hx. unfold clip1, F64.isna. by rewrite Hx. Qed.

Lemma clip1_fixed (lo hi x : float) :
  F64.within lo hi x → clip1 lo hi x = x.
Proof.
  intros [H1 H2]. unfold clip1, F64.ge, F64.le.
  by rewrite H1, H2, !orb_true_r.
Qed.

Lemma clip1_idem (lo hi x : float) :
  PrimFloat.leb lo hi = true →
  clip1 lo hi (clip1 lo hi x) = clip1 lo hi x.
Proof.
  intros Hlh. destruct (PrimFloat.is_nan x) eqn:Hx.
  - rewrite (clip1_nan lo hi x Hx). apply clip1_nan, Hx.
  - by apply clip1_fixed, clip1_within.
Qed.

End FloatFacts.

(** ** Summation in binary64

    What rounding does to a sum of non-negative numbers: one addition is the
    exact sum rounded to nearest, within a relative error of [2^-53]; the sum
    of a column, in whatever order NumPy adds it, is the exact sum within as
    many roundings as the longest chain of additions. *)

Section Summation.

Lemma column_length (c : Column) (df : DataFrame) :
  length (column c df) = length df.
Proof. apply length_map. Qed.

Lemma digits2_pos_bounds (m : positive) :
  2 ^ (Z.pos (digits2_pos m) - 1) ≤ Z.pos m < 2 ^ Z.pos (digits2_pos m).
Proof.
  induction m as [m IH|m IH|]; simpl digits2_pos.
  - rewrite Pos2Z.inj_succ, Z.pow_succ_r by lia.
    replace (Z.succ (Z.pos (digits2_pos m)) - 1)
      with (Z.succ (Z.pos (digits2_pos m) - 1)) by lia.
    rewrite Z.pow_succ_r by lia. lia.
  - rewrite Pos2Z.inj_succ, Z.pow_succ_r by lia.
    replace (Z.succ (Z.pos (digits2_pos m)) - 1)
      with (Z.succ (Z.pos (digits2_pos m) - 1)) by lia.
    rewrite Z.pow_succ_r by lia. lia.
  - simpl. lia.
Qed.

Lemma shifted_start (M : Z) :
  0 ≤ M → shifted M 0 (Build_shr_record M false false).
Proof.
  intros HM. exists 0. simpl.
  split; [lia|split; [lia|split; [lia|split; reflexivity]]].
Qed.

Lemma shifted_shr_1 (M k : Z) (mrs : shr_record) :
  0 ≤ k → shifted M k mrs → shifted M (k + 1) (shr_1 mrs).
Proof.
  intros Hk (rem & HM & Hrem & Hm & Hr & Hs).
  assert (Hpow : 2 ^ (k + 1) = 2 * 2 ^ k) by (rewrite Z.pow_add_r by lia; lia).
  assert (Hpos : 0 < 2 ^ k) by (apply Z.pow_pos_nonneg; lia).
  destruct mrs as [m r s]. simpl in *. subst r s.
  destruct m as [|[p|p|]|p]; try lia; simpl.
  - exists rem. simpl. rewrite Hpow.
    split; [lia|split; [lia|split; [lia|split]]].
    + symmetry. apply Z.leb_gt. lia.
    + destruct (Z.leb_spec (2 ^ k) (2 * rem)), (Z.eqb_spec rem 0),
        (Z.eqb_spec (2 * rem) (2 ^ k)), (Z.eqb_spec (2 * rem) (2 * 2 ^ k));
        simpl; try reflexivity; lia.
  - exists (rem + 2 ^ k). simpl. rewrite Hpow.
    split; [lia|split; [lia|split; [lia|split]]].
    + symmetry. apply Z.leb_le. lia.
    + destruct (Z.leb_spec (2 ^ k) (2 * rem)), (Z.eqb_spec rem 0),
        (Z.eqb_spec (2 * rem) (2 ^ k)), (Z.eqb_spec (rem + 2 ^ k) 0),
        (Z.eqb_spec (2 * (rem + 2 ^ k)) (2 * 2 ^ k));
        simpl; try reflexivity; lia.
  - exists rem. simpl. rewrite Hpow.
    split; [lia|split; [lia|split; [lia|split]]].
    + symmetry. apply Z.leb_gt. lia.
    + destruct (Z.leb_spec (2 ^ k) (2 * rem)), (Z.eqb_spec rem 0),
        (Z.eqb_spec (2 * rem) (2 ^ k)), (Z.eqb_spec (2 * rem) (2 * 2 ^ k));
        simpl; try reflexivity; lia.
  - exists (rem + 2 ^ k). simpl. rewrite Hpow.
    split; [lia|split; [lia|split; [lia|split]]].
    + symmetry. apply Z.leb_le. lia.
    + destruct (Z.leb_spec (2 ^ k) (2 * rem)), (Z.eqb_spec rem 0),
        (Z.eqb_spec (2 * rem) (2 ^ k)), (Z.eqb_spec (rem + 2 ^ k) 0),
        (Z.eqb_spec (2 * (rem + 2 ^ k)) (2 * 2 ^ k));
        simpl; try reflexivity; lia.
Qed.

Lemma shifted_iter_pos (M : Z) (p : positive) :
  ∀ k mrs, 0 ≤ k → shifted M k mrs →
           shifted M (k + Z.pos p) (SpecFloat.iter_pos shr_1 p mrs).
Proof.
  induction p as [p IH|p IH|]; intros k mrs Hk H; simpl SpecFloat.iter_pos.
  - replace (k + Z.pos p~1) with (k + 1 + Z.pos p + Z.pos p) by lia.
    apply IH; [lia|]. apply IH; [lia|]. by apply shifted_shr_1.
  - replace (k + Z.pos p~0) with (k + Z.pos p + Z.pos p) by lia.
    apply IH; [lia|]. by apply IH.
  - by apply shifted_shr_1.
Qed.

(** Rounding to nearest after [k] shifts is within half a unit. *)
Lemma round_nearest_even_shifted (M k : Z) (mrs : shr_record) :
  shifted M k mrs →
  let m' := round_nearest_even (shr_m mrs) (loc_of_shr_record mrs) in
  shr_m mrs ≤ m' ≤ shr_m mrs + 1 ∧ 2 * Z.abs (m' * 2 ^ k - M) ≤ 2 ^ k.
Proof.
  intros (rem & HM & Hrem & Hm & Hr & Hs).
  destruct mrs as [m r s]. simpl in *.
  destruct (Z.leb_spec (2 ^ k) (2 * rem)), (Z.eqb_spec rem 0),
    (Z.eqb_spec (2 * rem) (2 ^ k)); subst r s; simpl;
    try destruct (Z.even m); split; nia.
Qed.


Lemma pow2_lt_inv (a b : Z) : 0 ≤ b → 2 ^ a < 2 ^ b → a < b.
Proof.
  intros Hb H. destruct (Z.lt_ge_cases a b) as [|Hge]; [done|].
  apply (Z.pow_le_mono_r 2) in Hge; lia.
Qed.

Lemma pow2_split (a b : Z) : 0 ≤ a → 0 ≤ b → 2 ^ (a + b) = 2 ^ a * 2 ^ b.
Proof. intros. by apply Z.pow_add_r. Qed.

(** The second shift of [binary_round_aux]: a mantissa of 53 bits stays, the
    one of 54 bits that rounding up can produce is halved. *)
Lemma shr_fexp_normal (q : positive) (e : Z) (mrs : shr_record) (e' : Z) :
  -1074 ≤ e →
  2 ^ 52 ≤ Z.pos q ≤ 2 ^ 53 →
  shr_fexp prec emax (Z.pos q) e loc_Exact = (mrs, e') →
  ∃ m', shr_m mrs = Z.pos m'
        ∧ Z.pos m' * 2 ^ (e' + 1074) = Z.pos q * 2 ^ (e + 1074)
        ∧ e ≤ e' ≤ e + 1.
Proof.
  intros He Hq. unfold shr_fexp, fexp, SpecFloat.emin, shr_record_of_loc.
  simpl Zdigits2.
  pose proof (digits2_pos_bounds q) as Hd.
  destruct (Z.eq_dec (Z.pos q) (2 ^ 53)) as [Heq|Hne].
  - assert (q = 9007199254740992%positive) as ->
        by (apply Pos2Z.inj; rewrite Heq; reflexivity).
    change (Z.pos (digits2_pos 9007199254740992)) with 54.
    replace (Z.max (54 + e - prec) (3 - emax - prec) - e) with 1
      by (unfold prec, emax; lia).
    simpl. intros [= <- <-]. exists 4503599627370496%positive.
    split; [done|]. split; [|lia].
    replace (e + 1 + 1074) with (1 + (e + 1074)) by lia.
    rewrite pow2_split by lia. change (2 ^ 1) with 2. lia.
  - assert (Z.pos (digits2_pos q) = 53) as ->.
    { destruct Hd as [Hlo Hhi].
      assert (Z.pos (digits2_pos q) - 1 < 53)
        by (apply pow2_lt_inv; [lia|]; lia).
      assert (52 < Z.pos (digits2_pos q))
        by (apply pow2_lt_inv; [lia|]; lia).
      lia. }
    replace (Z.max (53 + e - prec) (3 - emax - prec) - e) with 0
      by (unfold prec, emax; lia).
    simpl. intros [= <- <-]. exists q. split; [done|]. split; [done|lia].
Qed.

(** Rounding a positive number [m * 2^e] to binary64: below the overflow
    range the result is a finite float within a relative error of [2^-53];
    a mantissa that fits in 53 bits is kept as it is. *)
Lemma binary_round_aux_near (m : positive) (e : Z) :
  -1074 ≤ e →
  Z.pos m * 2 ^ (e + 1074) < 2 ^ 2000 →
  ∃ m' e',
    binary_round_aux prec emax false (Z.pos m) e loc_Exact = S754_finite false m' e'
    ∧ -1074 ≤ e'
    ∧ 2 ^ 53 * Z.abs (Z.pos m' * 2 ^ (e' + 1074) - Z.pos m * 2 ^ (e + 1074))
      ≤ Z.pos m * 2 ^ (e + 1074)
    ∧ (Z.pos m < 2 ^ 53 → m' = m ∧ e' = e).
Proof.
  intros He Hv.
  remember (2 ^ 2000) as B eqn:HB.
  pose proof (digits2_pos_bounds m) as [Hlo Hhi].
  assert (Hpe : 0 < 2 ^ (e + 1074)) by (apply Z.pow_pos_nonneg; lia).
  unfold binary_round_aux.
  destruct (shr_fexp prec emax (Z.pos m) e loc_Exact) as [mrs1 e1] eqn:E1.
  destruct (shr_fexp prec emax
              (round_nearest_even (shr_m mrs1) (loc_of_shr_record mrs1)) e1
              loc_Exact) as [mrs2 e2] eqn:E2.
  unfold shr_fexp, fexp, SpecFloat.emin, shr_record_of_loc in E1.
  simpl Zdigits2 in E1.
  set (d := Z.pos (digits2_pos m)) in *.
  destruct (Z.le_gt_cases d 53) as [Hd|Hd].
  - (* no shift: the number is representable *)
    assert (Z.max (d + e - prec) (3 - emax - prec) - e ≤ 0) as Hn
        by (unfold prec, emax; lia).
    assert ((mrs1, e1) = (Build_shr_record (Z.pos m) false false, e)) as [= -> ->].
    { rewrite <- E1. unfold shr.
      destruct (Z.max (d + e - prec) (3 - emax - prec) - e); try done; lia. }
    simpl in E2.
    unfold shr_fexp, fexp, SpecFloat.emin, shr_record_of_loc in E2.
    simpl Zdigits2 in E2. fold d in E2.
    assert ((mrs2, e2) = (Build_shr_record (Z.pos m) false false, e)) as [= -> ->].
    { rewrite <- E2. unfold shr.
      destruct (Z.max (d + e - prec) (3 - emax - prec) - e); try done; lia. }
    simpl.
    assert (e + 1074 < 2000).
    { apply pow2_lt_inv; [lia|]. rewrite <- HB.
      eapply Z.le_lt_trans; [|exact Hv]. nia. }
    assert ((e <=? emax - prec) = true) as -> by (apply Z.leb_le; unfold emax, prec; lia).
    exists m, e. split; [done|]. split; [done|].
    split; [|done]. rewrite Z.sub_diag. simpl. lia.
  - (* the mantissa has more than 53 bits *)
    assert (Z.max (d + e - prec) (3 - emax - prec) - e = d - 53) as Hn
        by (unfold prec, emax; lia).
    rewrite Hn in E1.
    destruct (d - 53) as [|p|p] eqn:Ep; try lia.
    unfold shr in E1. injection E1 as E1 <-.
    pose proof (shifted_iter_pos (Z.pos m) p 0 _ ltac:(lia)
                  (shifted_start (Z.pos m) ltac:(lia))) as Hsh.
    rewrite E1 in Hsh. rewrite Z.add_0_l in Hsh.
    pose proof (round_nearest_even_shifted _ _ _ Hsh) as [Hm2 Herr].
    destruct Hsh as (rem & HM & Hrem & Hm1 & _).
    set (m2 := round_nearest_even (shr_m mrs1) (loc_of_shr_record mrs1)) in *.
    assert (Hpp : 0 < 2 ^ Z.pos p) by (apply Z.pow_pos_nonneg; lia).
    assert (Hd1 : 2 ^ (d - 1) = 2 ^ 52 * 2 ^ Z.pos p).
    { replace (d - 1) with (52 + Z.pos p) by lia. apply pow2_split; lia. }
    assert (Hd2 : 2 ^ d = 2 ^ 53 * 2 ^ Z.pos p).
    { replace d with (53 + Z.pos p) by lia. apply pow2_split; lia. }
    assert (Hm1b : 2 ^ 52 ≤ shr_m mrs1 < 2 ^ 53) by nia.
    assert (Hm2b : 2 ^ 52 ≤ m2 ≤ 2 ^ 53) by lia.
    destruct m2 as [|q|q] eqn:Eq; try lia.
    destruct (shr_fexp_normal q (e + Z.pos p) mrs2 e2 ltac:(lia) Hm2b E2)
      as (m' & Hm' & Hval & He2).
    rewrite Hm'.
    assert (Hsplit : 2 ^ (e + Z.pos p + 1074) = 2 ^ Z.pos p * 2 ^ (e + 1074)).
    { replace (e + Z.pos p + 1074) with (Z.pos p + (e + 1074)) by lia.
      apply pow2_split; lia. }
    assert (e + Z.pos p + 1126 < 2000).
    { apply pow2_lt_inv; [lia|].
      replace (e + Z.pos p + 1126) with (52 + Z.pos p + (e + 1074)) by lia.
      rewrite <- HB. eapply Z.le_lt_trans; [|exact Hv].
      rewrite !pow2_split by lia. nia. }
    assert ((e2 <=? emax - prec) = true) as -> by (apply Z.leb_le; unfold emax, prec; lia).
    assert (Hp2 : 2 ^ 1 ≤ 2 ^ Z.pos p) by (apply Z.pow_le_mono_r; lia).
    exists m', e2. split; [done|]. split; [lia|].
    split; [|intros; change (2 ^ 1) with 2 in Hp2; nia].
    rewrite Hval, Hsplit.
    replace (Z.pos q * (2 ^ Z.pos p * 2 ^ (e + 1074)) - Z.pos m * 2 ^ (e + 1074))
      with ((Z.pos q * 2 ^ Z.pos p - Z.pos m) * 2 ^ (e + 1074)) by lia.
    rewrite Z.abs_mul, (Z.abs_eq (2 ^ (e + 1074))) by lia.
    nia.
Qed.


Lemma valid_finite (s : bool) (m : positive) (e : Z) :
  valid_binary (S754_finite s m e) = true →
  -1074 ≤ e ≤ 971 ∧ Z.pos m < 2 ^ 53.
Proof.
  unfold valid_binary, SpecFloat.valid_binary, bounded, canonical_mantissa, fexp, SpecFloat.emin.
  intros [Hc He%Z.leb_le]%andb_true_iff. apply Z.eqb_eq in Hc.
  pose proof (digits2_pos_bounds m) as [_ Hhi].
  unfold prec, emax in *.
  split; [lia|].
  eapply Z.lt_le_trans; [exact Hhi|]. apply Z.pow_le_mono_r; lia.
Qed.

Lemma Prim2SF_finite (x : float) (s : bool) (m : positive) (e : Z) :
  Prim2SF x = S754_finite s m e → -1074 ≤ e ≤ 971 ∧ Z.pos m < 2 ^ 53.
Proof.
  intros Hx. apply (valid_finite s). rewrite <- Hx. apply Prim2SF_valid.
Qed.

Lemma Pos_iter_xO (m d : positive) :
  Z.pos (Pos.iter xO m d) = Z.pos m * 2 ^ Z.pos d.
Proof.
  induction d as [|d IH] using Pos.peano_ind.
  - simpl. lia.
  - rewrite Pos.iter_succ, Pos2Z.inj_xO, IH, Pos2Z.inj_succ, Z.pow_succ_r by lia.
    lia.
Qed.

Lemma shl_align_spec (m : positive) (e e' : Z) :
  ∃ m2, shl_align m e e' = (m2, Z.min e e')
        ∧ Z.pos m2 = Z.pos m * 2 ^ (e - Z.min e e').
Proof.
  unfold shl_align. destruct (e' - e) as [|d|d] eqn:E.
  - exists m. replace (Z.min e e') with e by lia.
    rewrite Z.sub_diag. split; [done|]. simpl; lia.
  - exists m. replace (Z.min e e') with e by lia.
    rewrite Z.sub_diag. split; [done|]. simpl; lia.
  - exists (Pos.iter xO m d). replace (Z.min e e') with e' by lia.
    split; [done|]. rewrite Pos_iter_xO. f_equal. f_equal. lia.
Qed.

Lemma binary_round_near (m : positive) (e : Z) :
  -1074 ≤ e →
  Z.pos m * 2 ^ (e + 1074) < 2 ^ 2000 →
  ∃ m' e',
    binary_round prec emax false m e = S754_finite false m' e'
    ∧ 2 ^ 53 * Z.abs (Z.pos m' * 2 ^ (e' + 1074) - Z.pos m * 2 ^ (e + 1074))
      ≤ Z.pos m * 2 ^ (e + 1074)
    ∧ (Z.pos m * 2 ^ (e + 1074) < 2 ^ 53 * 2 ^ (Z.min e (fexp prec emax (Z.pos (digits2_pos m) + e)) + 1074) →
       Z.pos m' * 2 ^ (e' + 1074) = Z.pos m * 2 ^ (e + 1074)).
Proof.
  intros He Hv. unfold binary_round.
  set (e1 := fexp prec emax (Z.pos (digits2_pos m) + e)).
  assert (He1 : -1074 ≤ e1) by (unfold e1, fexp, SpecFloat.emin, prec, emax; lia).
  destruct (shl_align_spec m e e1) as (mz & -> & Hmz).
  set (ez := Z.min e e1) in *.
  assert (Hval : Z.pos mz * 2 ^ (ez + 1074) = Z.pos m * 2 ^ (e + 1074)).
  { rewrite Hmz, <- Z.mul_assoc, <- pow2_split by lia.
    f_equal. f_equal. lia. }
  destruct (binary_round_aux_near mz ez ltac:(lia) ltac:(by rewrite Hval))
    as (m' & e' & -> & _ & Herr & Hex).
  exists m', e'. split; [done|]. rewrite <- Hval. split; [done|].
  intros Hsmall.
  assert (0 < 2 ^ (ez + 1074)) by (apply Z.pow_pos_nonneg; lia).
  destruct Hex as [-> ->]; [nia|done].
Qed.

Lemma SFunits_nonneg (x : spec_float) : SFnonneg x = true → 0 ≤ SFunits x.
Proof.
  destruct x as [| | |[] m e]; simpl; try done; lia.
Qed.

(** Adding two non-negative floats, below the overflow range: the result is
    the exact sum rounded, within a relative error of [2^-53]. *)
Lemma SFadd_near (x y : spec_float) :
  valid_binary x = true → valid_binary y = true →
  SFnonneg x = true → SFnonneg y = true →
  SFunits x + SFunits y < 2 ^ 2000 →
  SFnonneg (SF64add x y) = true
  ∧ 2 ^ 53 * Z.abs (SFunits (SF64add x y) - (SFunits x + SFunits y))
    ≤ SFunits x + SFunits y.
Proof.
  intros Vx Vy Nx Ny Hv.
  destruct x as [sx| | |[] mx ex], y as [sy| | |[] my ey]; try done.
  - destruct sx, sy; simpl; split; try done; lia.
  - cbn [SF64add SFadd]. split; [done|].
    replace (SFunits (S754_finite false my ey)
             - (SFunits (S754_zero sx) + SFunits (S754_finite false my ey)))
      with 0 by (simpl SFunits; lia).
    pose proof (SFunits_nonneg _ Ny). simpl Z.abs. simpl (SFunits (S754_zero sx)). lia.
  - cbn [SF64add SFadd]. split; [done|].
    replace (SFunits (S754_finite false mx ex)
             - (SFunits (S754_finite false mx ex) + SFunits (S754_zero sy)))
      with 0 by (simpl SFunits; lia).
    pose proof (SFunits_nonneg _ Nx). simpl Z.abs. simpl (SFunits (S754_zero sy)). lia.
  - apply valid_finite in Vx as [Hex _], Vy as [Hey _].
    cbn [SF64add SFadd cond_Zopp].
    set (ez := Z.min ex ey).
    destruct (shl_align_spec mx ex ez) as (mx' & -> & Hmx).
    destruct (shl_align_spec my ey ez) as (my' & -> & Hmy).
    cbn [fst]. replace (Z.min ex ez) with ez in Hmx by lia.
    replace (Z.min ey ez) with ez in Hmy by lia.
    change (Z.pos mx' + Z.pos my') with (Z.pos (mx' + my')).
    cbn [binary_normalize].
    assert (Hsum : Z.pos (mx' + my') * 2 ^ (ez + 1074)
                   = SFunits (S754_finite false mx ex)
                     + SFunits (S754_finite false my ey)).
    { rewrite Pos2Z.inj_add, Hmx, Hmy. cbn [SFunits].
      rewrite Z.mul_add_distr_r, <- !Z.mul_assoc, <- !pow2_split by lia.
      replace (ex - ez + (ez + 1074)) with (ex + 1074) by lia.
      replace (ey - ez + (ez + 1074)) with (ey + 1074) by lia. lia. }
    destruct (binary_round_near (mx' + my') ez ltac:(lia) ltac:(by rewrite Hsum))
      as (m' & e' & -> & Herr & _).
    split; [done|]. rewrite <- Hsum.
    replace (SFunits (S754_finite false m' e')) with (Z.pos m' * 2 ^ (e' + 1074))
      by (cbn [SFunits]; lia).
    exact Herr.
Qed.

Lemma add_near (x y : float) :
  nonneg x = true → nonneg y = true →
  units x + units y < 2 ^ 2000 →
  nonneg (x + y) = true
  ∧ 2 ^ 53 * Z.abs (units (x + y) - (units x + units y)) ≤ units x + units y.
Proof.
  unfold nonneg, units. rewrite add_spec.
  apply SFadd_near; apply Prim2SF_valid.
Qed.

Lemma units_nonneg (x : float) : nonneg x = true → 0 ≤ units x.
Proof. apply SFunits_nonneg. Qed.

Lemma near_exact (x : float) : nonneg x = true → near 0 x (units x).
Proof.
  intros Hx. split; [done|]. split; [by apply units_nonneg|].
  rewrite Z.sub_diag. simpl. lia.
Qed.

Lemma near_mono (k k' : Z) (x : float) (v : Z) :
  k ≤ k' → near k x v → near k' x v.
Proof. intros Hk (Hx & Hv & H). split; [done|]. split; [done|]. nia. Qed.

Lemma near_add (k1 k2 K : Z) (x y : float) (v1 v2 : Z) :
  near k1 x v1 → near k2 y v2 →
  0 ≤ k1 < K → 0 ≤ k2 < K → K ≤ 2 ^ 52 →
  v1 + v2 < 2 ^ 1999 →
  near K (x + y) (v1 + v2).
Proof.
  intros (Nx & Hv1 & Hx) (Ny & Hv2 & Hy) Hk1 Hk2 HK Hv.
  pose proof (units_nonneg x Nx) as Hsx.
  pose proof (units_nonneg y Ny) as Hsy.
  assert (Hax : units x ≤ 2 * v1) by nia.
  assert (Hay : units y ≤ 2 * v2) by nia.
  change (2 ^ 1999) with (2 ^ 2000 / 2) in Hv.
  remember (2 ^ 2000) as B eqn:HB.
  assert (HB2 : 2 * (B / 2) ≤ B) by (apply Z.mul_div_le; lia).
  destruct (add_near x y Nx Ny) as [Nz Hz]; [rewrite <- HB; lia|].
  clear HB HB2 Hv B.
  split; [done|]. split; [lia|].
  set (a := units x) in *. set (b := units y) in *.
  set (c := units (x + y)) in *.
  assert (H1 : 2 ^ 52 * Z.abs (c - (a + b)) ≤ v1 + v2) by lia.
  assert (H2 : k1 * v1 ≤ (K - 1) * v1) by nia.
  assert (H3 : k2 * v2 ≤ (K - 1) * v2) by nia.
  assert (H4 : Z.abs (c - (v1 + v2))
               ≤ Z.abs (c - (a + b)) + Z.abs (a - v1) + Z.abs (b - v2)) by lia.
  nia.
Qed.

Lemma exact_sum_app (a b : list float) :
  exact_sum (a ++ b) = exact_sum a + exact_sum b.
Proof. induction a as [|x a IH]; simpl; lia. Qed.

Lemma exact_sum_nonneg (a : list float) : all_nonneg a → 0 ≤ exact_sum a.
Proof.
  induction 1 as [|x a Hx _ IH]; simpl; [lia|].
  pose proof (units_nonneg x Hx). lia.
Qed.

Lemma sum_loop_near (a : list float) :
  ∀ k res v,
    near k res v → all_nonneg a → 0 ≤ k →
    k + Z.of_nat (length a) ≤ 2 ^ 52 →
    v + exact_sum a < 2 ^ 1999 →
    near (k + Z.of_nat (length a)) (sum_loop res a) (v + exact_sum a).
Proof.
  induction a as [|x a IH]; intros k res v Hres Ha Hk Hlen Hv.
  - simpl. by rewrite !Z.add_0_r.
  - apply Forall_cons in Ha as [Hx Ha].
    pose proof (exact_sum_nonneg a Ha) as Hs.
    remember (2 ^ 1999) as B. remember (2 ^ 52) as C.
    cbn [length exact_sum foldr] in *. fold (exact_sum a) in *.
    change (sum_loop res (x :: a)) with (sum_loop (res + x) a).
    replace (k + Z.of_nat (S (length a))) with (k + 1 + Z.of_nat (length a)) in * by lia.
    rewrite Z.add_assoc. subst B C.
    apply IH; [|done|lia|lia|lia].
    apply (near_add k 0); [done|by apply near_exact|lia|lia|lia|lia].
Qed.

Lemma near_value_nonneg (k : Z) (x : float) (v : Z) : near k x v → 0 ≤ v.
Proof. by intros (_ & ? & _). Qed.

Lemma add_blocks_near (n : nat) :
  ∀ a r k V,
    (length a ≤ n)%nat →
    lanes_near k r V → all_nonneg a → 0 ≤ k →
    k + Z.of_nat (length a) ≤ 2 ^ 52 →
    V + exact_sum a < 2 ^ 1999 →
    ∃ r' rest c V',
      add_blocks r a = (r', rest)
      ∧ lanes_near (k + c) r' V'
      ∧ V' + exact_sum rest = V + exact_sum a
      ∧ 0 ≤ c ∧ 8 * c + Z.of_nat (length rest) = Z.of_nat (length a)
      ∧ all_nonneg rest.
Proof.
  induction n as [|n IH]; intros a r k V Hn Hr Ha Hk Hlen Hv.
  { destruct a; [|simpl in Hn; lia].
    exists r, [], 0, V. rewrite Z.add_0_r.
    split; [reflexivity|]. split; [exact Hr|]. split; [reflexivity|].
    split; [lia|]. split; [lia|exact Ha]. }
  destruct a as [|a0 [|a1 [|a2 [|a3 [|a4 [|a5 [|a6 [|a7 t]]]]]]]];
    try (eexists r, _, 0, V; rewrite Z.add_0_r;
         split; [reflexivity|]; split; [exact Hr|]; split; [reflexivity|];
         split; [lia|]; split; [lia|exact Ha]).
  cbn [add_blocks].
  apply Forall_cons in Ha as [N0 Ha]. apply Forall_cons in Ha as [N1 Ha].
  apply Forall_cons in Ha as [N2 Ha]. apply Forall_cons in Ha as [N3 Ha].
  apply Forall_cons in Ha as [N4 Ha]. apply Forall_cons in Ha as [N5 Ha].
  apply Forall_cons in Ha as [N6 Ha]. apply Forall_cons in Ha as [N7 Ha].
  pose proof (exact_sum_nonneg t Ha) as Hs.
  destruct Hr as (v0 & v1 & v2 & v3 & v4 & v5 & v6 & v7
                  & Q0 & Q1 & Q2 & Q3 & Q4 & Q5 & Q6 & Q7 & ->).
  pose proof (near_value_nonneg _ _ _ Q0). pose proof (near_value_nonneg _ _ _ Q1).
  pose proof (near_value_nonneg _ _ _ Q2). pose proof (near_value_nonneg _ _ _ Q3).
  pose proof (near_value_nonneg _ _ _ Q4). pose proof (near_value_nonneg _ _ _ Q5).
  pose proof (near_value_nonneg _ _ _ Q6). pose proof (near_value_nonneg _ _ _ Q7).
  pose proof (units_nonneg a0 N0). pose proof (units_nonneg a1 N1).
  pose proof (units_nonneg a2 N2). pose proof (units_nonneg a3 N3).
  pose proof (units_nonneg a4 N4). pose proof (units_nonneg a5 N5).
  pose proof (units_nonneg a6 N6). pose proof (units_nonneg a7 N7).
  remember (2 ^ 1999) as B eqn:HB. remember (2 ^ 52) as C eqn:HC.
  cbn [length exact_sum foldr] in *. fold (exact_sum t) in *.
  set (rl := (mkLanes (lane0 r + a0) (lane1 r + a1) (lane2 r + a2) (lane3 r + a3)
                      (lane4 r + a4) (lane5 r + a5) (lane6 r + a6) (lane7 r + a7))%float).
  set (V1 := v0 + units a0 + (v1 + units a1) + (v2 + units a2)
             + (v3 + units a3) + (v4 + units a4) + (v5 + units a5)
             + (v6 + units a6) + (v7 + units a7)).
  assert (Hr1 : lanes_near (k + 1) rl V1).
  { exists (v0 + units a0), (v1 + units a1), (v2 + units a2),
      (v3 + units a3), (v4 + units a4), (v5 + units a5),
      (v6 + units a6), (v7 + units a7).
    cbn [rl lane0 lane1 lane2 lane3 lane4 lane5 lane6 lane7].
    repeat (split; [apply (near_add k 0); subst B C;
                    [eassumption|by apply near_exact|lia|lia|lia|lia]|]).
    reflexivity. }
  destruct (IH t rl (k + 1) V1)
    as (r' & rest & c & V' & Heq & Hr' & HV' & Hc & Hl & Hrest);
    [lia|done|done|lia|lia|unfold V1; lia|].
  exists r', rest, (1 + c), V'. rewrite Z.add_assoc.
  split; [done|]. split; [done|]. split; [unfold V1 in HV'; lia|].
  split; [lia|]. split; [lia|done].
Qed.

Lemma block_sum_near (a : list float) :
  all_nonneg a →
  Z.of_nat (length a) ≤ 2 ^ 52 →
  exact_sum a < 2 ^ 1999 →
  near (Z.of_nat (length a)) (block_sum a) (exact_sum a).
Proof.
  intros Ha Hlen Hv.
  assert (Hshort : near (Z.of_nat (length a)) (sum_loop neg_zero a) (exact_sum a)).
  { apply (sum_loop_near a 0 neg_zero 0); [|done|lia|lia|lia].
    split; [done|]. split; [lia|]. change (units neg_zero) with 0. simpl. lia. }
  destruct a as [|a0 [|a1 [|a2 [|a3 [|a4 [|a5 [|a6 [|a7 t]]]]]]]]; try exact Hshort.
  clear Hshort. cbn [block_sum].
  apply Forall_cons in Ha as [N0 Ha]. apply Forall_cons in Ha as [N1 Ha].
  apply Forall_cons in Ha as [N2 Ha]. apply Forall_cons in Ha as [N3 Ha].
  apply Forall_cons in Ha as [N4 Ha]. apply Forall_cons in Ha as [N5 Ha].
  apply Forall_cons in Ha as [N6 Ha]. apply Forall_cons in Ha as [N7 Ha].
  pose proof (exact_sum_nonneg t Ha) as Hs.
  pose proof (units_nonneg a0 N0). pose proof (units_nonneg a1 N1).
  pose proof (units_nonneg a2 N2). pose proof (units_nonneg a3 N3).
  pose proof (units_nonneg a4 N4). pose proof (units_nonneg a5 N5).
  pose proof (units_nonneg a6 N6). pose proof (units_nonneg a7 N7).
  remember (2 ^ 1999) as B eqn:HB. remember (2 ^ 52) as C eqn:HC.
  cbn [length exact_sum foldr] in *. fold (exact_sum t) in *.
  set (V := units a0 + units a1 + units a2 + units a3
            + units a4 + units a5 + units a6 + units a7).
  destruct (add_blocks_near (length t) t (mkLanes a0 a1 a2 a3 a4 a5 a6 a7) 0 V)
    as (r' & rest & c & V' & -> & Hr' & HV' & Hc & Hl & Hrest);
    [done
    |exists (units a0), (units a1), (units a2), (units a3),
        (units a4), (units a5), (units a6), (units a7);
      cbn [lane0 lane1 lane2 lane3 lane4 lane5 lane6 lane7];
      repeat (split; [by apply near_exact|]); reflexivity
    |done|lia|subst C; lia|subst B; unfold V; lia|].
  rewrite Z.add_0_l in Hr'.
  destruct Hr' as (v0 & v1 & v2 & v3 & v4 & v5 & v6 & v7
                   & Q0 & Q1 & Q2 & Q3 & Q4 & Q5 & Q6 & Q7 & ->).
  pose proof (near_value_nonneg _ _ _ Q0). pose proof (near_value_nonneg _ _ _ Q1).
  pose proof (near_value_nonneg _ _ _ Q2). pose proof (near_value_nonneg _ _ _ Q3).
  pose proof (near_value_nonneg _ _ _ Q4). pose proof (near_value_nonneg _ _ _ Q5).
  pose proof (near_value_nonneg _ _ _ Q6). pose proof (near_value_nonneg _ _ _ Q7).
  pose proof (exact_sum_nonneg rest Hrest) as Hsr.
  assert (Hpairs : near (c + 3)
            (((lane0 r' + lane1 r') + (lane2 r' + lane3 r'))
             + ((lane4 r' + lane5 r') + (lane6 r' + lane7 r')))%float
            (((v0 + v1) + (v2 + v3)) + ((v4 + v5) + (v6 + v7)))).
  { subst B C.
    apply (near_add (c + 2) (c + 2)); [| |lia|lia|lia|lia].
    - apply (near_add (c + 1) (c + 1)); [| |lia|lia|lia|lia].
      + apply (near_add c c); [done|done|lia|lia|lia|lia].
      + apply (near_add c c); [done|done|lia|lia|lia|lia].
    - apply (near_add (c + 1) (c + 1)); [| |lia|lia|lia|lia].
      + apply (near_add c c); [done|done|lia|lia|lia|lia].
      + apply (near_add c c); [done|done|lia|lia|lia|lia]. }
  pose proof (sum_loop_near rest (c + 3) _ _ Hpairs Hrest ltac:(lia)
                ltac:(subst C; lia) ltac:(subst B; unfold V in HV'; lia)) as Hfin.
  match goal with
  | |- near _ _ ?v =>
      replace (v0 + v1 + (v2 + v3) + (v4 + v5 + (v6 + v7)) + exact_sum rest)
        with v in Hfin by (unfold V in HV'; lia)
  end.
  eapply near_mono; [|exact Hfin]. lia.
Qed.

Lemma exact_sum_take_drop (n : nat) (a : list float) :
  exact_sum (take n a) + exact_sum (drop n a) = exact_sum a.
Proof. by rewrite <- exact_sum_app, take_drop. Qed.

Lemma pairwise_sum_rec_near (depth : nat) :
  ∀ a,
    all_nonneg a →
    Z.of_nat (length a) ≤ 2 ^ 52 →
    exact_sum a < 2 ^ 1999 →
    near (Z.of_nat (length a)) (pairwise_sum_rec depth a) (exact_sum a).
Proof.
  induction depth as [|depth IH]; intros a Ha Hlen Hv; cbn [pairwise_sum_rec].
  { by apply block_sum_near. }
  destruct (Nat.ltb_spec 128 (length a)) as [Hbig|]; [|by apply block_sum_near].
  set (n2 := (length a / 2 - (length a / 2) mod 8)%nat).
  assert (Hn2 : (1 ≤ n2 < length a)%nat).
  { unfold n2.
    pose proof (Nat.mod_upper_bound (length a / 2) 8 ltac:(lia)).
    pose proof (Nat.div_lt (length a) 2 ltac:(lia) ltac:(lia)).
    assert (64 ≤ length a / 2)%nat by (apply Nat.div_le_lower_bound; lia).
    lia. }
  pose proof (exact_sum_take_drop n2 a) as Hsplit.
  pose proof (exact_sum_nonneg _ (Forall_take _ n2 _ Ha)) as Ht.
  pose proof (exact_sum_nonneg _ (Forall_drop _ n2 _ Ha)) as Hd.
  assert (Hlt : length (take n2 a) = n2) by (rewrite length_take; lia).
  assert (Hld : length (drop n2 a) = (length a - n2)%nat) by apply length_drop.
  remember (2 ^ 1999) as B eqn:HB. remember (2 ^ 52) as C eqn:HC.
  rewrite <- Hsplit.
  apply (near_add (Z.of_nat (length (take n2 a)))
                  (Z.of_nat (length (drop n2 a)))); subst B C; try lia.
  - apply IH; [by apply Forall_take|lia|lia].
  - apply IH; [by apply Forall_drop|lia|lia].
Qed.

(** The counter of [pairwise_sum] never runs out: with any two counters that
    are at least the length, the result is the same. *)
Lemma pairwise_sum_rec_depth (d1 : nat) :
  ∀ d2 a, (length a ≤ d1)%nat → (length a ≤ d2)%nat →
          pairwise_sum_rec d1 a = pairwise_sum_rec d2 a.
Proof.
  induction d1 as [|d1 IH]; intros d2 a H1 H2.
  - destruct a; [|simpl in H1; lia]. by destruct d2.
  - destruct d2 as [|d2].
    + destruct a; [done|simpl in H2; lia].
    + cbn [pairwise_sum_rec].
      destruct (Nat.ltb_spec 128 (length a)) as [Hbig|]; [|done].
      set (n2 := (length a / 2 - (length a / 2) mod 8)%nat).
      assert (Hn2 : (1 ≤ n2 < length a)%nat).
      { unfold n2.
        pose proof (Nat.mod_upper_bound (length a / 2) 8 ltac:(lia)).
        pose proof (Nat.div_lt (length a) 2 ltac:(lia) ltac:(lia)).
        assert (64 ≤ length a / 2)%nat by (apply Nat.div_le_lower_bound; lia).
        lia. }
      assert (Hlt : length (take n2 a) = n2) by (rewrite length_take; lia).
      assert (Hld : length (drop n2 a) = (length a - n2)%nat) by apply length_drop.
      f_equal; apply IH; lia.
Qed.

(** [pairwise_sum] as the source defines it. *)
Lemma pairwise_sum_unfold (a : list float) :
  pairwise_sum a
  = if (128 <? length a)%nat
    then let n2 := (length a / 2)%nat in
         let n2 := (n2 - n2 mod 8)%nat in
         (pairwise_sum (take n2 a) + pairwise_sum (drop n2 a))%float
    else block_sum a.
Proof.
  unfold pairwise_sum at 1.
  destruct (length a) as [|n] eqn:En; [done|].
  cbn [pairwise_sum_rec]. rewrite En.
  destruct (Nat.ltb_spec 128 (S n)) as [Hbig|]; [|done].
  cbv zeta. set (n2 := (S n / 2 - (S n / 2) mod 8)%nat).
  assert (Hn2 : (1 ≤ n2 < S n)%nat).
  { unfold n2.
    pose proof (Nat.mod_upper_bound (S n / 2) 8 ltac:(lia)).
    pose proof (Nat.div_lt (S n) 2 ltac:(lia) ltac:(lia)).
    assert (64 ≤ S n / 2)%nat by (apply Nat.div_le_lower_bound; lia).
    lia. }
  assert (Hlt : length (take n2 a) = n2) by (rewrite length_take; lia).
  assert (Hld : length (drop n2 a) = (S n - n2)%nat)
    by (rewrite length_drop; lia).
  unfold pairwise_sum.
  f_equal; apply pairwise_sum_rec_depth; lia.
Qed.

(** The sum NumPy returns for a column of non-negative numbers is the exact
    sum within [n + 1] roundings. *)
Lemma series_sum_near (s : list float) :
  all_nonneg s →
  Z.of_nat (length s) < 2 ^ 52 →
  exact_sum s < 2 ^ 1999 →
  near (Z.of_nat (length s) + 1) (series_sum s) (exact_sum s).
Proof.
  intros Hs Hlen Hv. unfold series_sum, pairwise_sum.
  change (exact_sum s) with (0 + exact_sum s).
  remember (2 ^ 1999) as B eqn:HB. remember (2 ^ 52) as C eqn:HC.
  pose proof (exact_sum_nonneg s Hs).
  apply (near_add 0 (Z.of_nat (length s))); subst B C;
    [|apply pairwise_sum_rec_near; [done|lia|done]|lia|lia|lia|lia].
  split; [done|]. split; [lia|]. change (units 0) with 0. simpl. lia.
Qed.

Lemma nonneg_not_nan (x : float) : nonneg x = true → F64.isna x = false.
Proof.
  unfold nonneg, F64.isna. intros Hx. apply is_nan_false_Prim2SF.
  by destruct (Prim2SF x).
Qed.

(** A quality score: a float in [[0, 1]] is a non-negative number of at most
    [2^1074] units. *)
Lemma within_unit (x : float) :
  F64.within 0 1 x → nonneg x = true ∧ units x ≤ 2 ^ 1074.
Proof.
  unfold F64.within, nonneg, units.
  rewrite !FloatAxioms.leb_spec. unfold SFleb.
  change (Prim2SF 0) with (S754_zero false).
  change (Prim2SF 1) with (S754_finite false 4503599627370496 (-52)).
  pose proof (Prim2SF_finite x) as Hval.
  destruct (Prim2SF x) as [s|[]| |[] m e]; try (intros [? ?]; done).
  intros [_ H1]. split; [done|].
  destruct (Hval false m e eq_refl) as [He Hm].
  cbn [SFcompare] in H1. cbn [SFunits].
  rewrite Pos.compare_cont_spec in H1. cbn [Pos.switch_Eq] in H1.
  change (2 ^ 1074) with (2 ^ 52 * 2 ^ 1022).
  remember (2 ^ 1022) as P eqn:HP.
  destruct (Z.compare_spec e (-52)) as [->|Hlt|Hgt]; [| |discriminate H1].
  - change (-52 + 1074) with 1022. rewrite <- HP.
    assert (0 < P) by (subst P; apply Z.pow_pos_nonneg; lia).
    change (2 ^ 52) with 4503599627370496.
    destruct (Pos.compare_spec m 4503599627370496) as [->|Hlt|Hgt];
      [lia| |discriminate H1].
    apply Pos2Z.pos_lt_pos in Hlt. nia.
  - assert (2 ^ (e + 1074) ≤ 2 ^ 1021) as Hp by (apply Z.pow_le_mono_r; lia).
    assert (P = 2 * 2 ^ 1021) as -> by (subst P; reflexivity).
    remember (2 ^ 1021) as Q. remember (2 ^ (e + 1074)) as R.
    change (2 ^ 53) with (2 * 2 ^ 52) in Hm.
    remember (2 ^ 52) as T. assert (0 < T) by (subst T; lia).
    assert (0 ≤ R) by (subst R; apply Z.pow_nonneg; lia).
    nia.
Qed.

Lemma exact_sum_unit (s : list float) :
  Forall (F64.within 0 1) s →
  all_nonneg s ∧ exact_sum s ≤ Z.of_nat (length s) * 2 ^ 1074.
Proof.
  remember (2 ^ 1074) as U.
  induction 1 as [|x s Hx _ [IH1 IH2]]; [split; [done|simpl; lia]|].
  apply within_unit in Hx as [Hn Hx]. rewrite <- HeqU in Hx.
  split; [by constructor|].
  cbn [length exact_sum foldr]. fold (exact_sum s). lia.
Qed.

(** [float(n)] is exactly [n] for the lengths a table can have. *)
Lemma of_nat_exact (n : nat) :
  Z.of_nat n < 2 ^ 53 → units (F64.of_nat n) = Z.of_nat n * 2 ^ 1074.
Proof.
  intros Hn. unfold units, F64.of_nat. rewrite of_uint63_spec.
  rewrite Uint63.of_Z_spec.
  rewrite Z.mod_small by (change Uint63.wB with (2 ^ 63); split; [lia|];
    eapply Z.lt_trans; [exact Hn|done]).
  destruct (Z.of_nat n) as [|p|p] eqn:Ep; [done| |lia].
  cbn [binary_normalize].
  pose proof (digits2_pos_bounds p) as [Hlo Hhi].
  set (d := Z.pos (digits2_pos p)) in *.
  assert (Hd : d ≤ 53).
  { destruct (Z.le_gt_cases d 53) as [|Hgt]; [done|].
    assert (2 ^ 53 ≤ 2 ^ (d - 1)) by (apply Z.pow_le_mono_r; lia). lia. }
  assert (Hmin : Z.min 0 (fexp prec emax (d + 0)) = d - 53)
    by (unfold fexp, SpecFloat.emin, prec, emax; lia).
  assert (Hpd : 2 ^ 53 = 2 ^ d * 2 ^ (53 - d)).
  { rewrite <- pow2_split by lia. f_equal. lia. }
  assert (Hpu : 2 ^ (d - 53 + 1074) * 2 ^ (53 - d) = 2 ^ 1074).
  { rewrite <- pow2_split by lia. f_equal. lia. }
  remember (2 ^ 53) as T. remember (2 ^ 1074) as U.
  assert (0 < 2 ^ (53 - d)) by (apply Z.pow_pos_nonneg; lia).
  assert (0 < 2 ^ (d - 53 + 1074)) by (apply Z.pow_pos_nonneg; lia).
  destruct (binary_round_near p 0) as (m' & e' & -> & _ & Hex); [lia| |].
  { change (0 + 1074) with 1074. rewrite <- HeqU.
    assert (U < 2 ^ 1900) by (subst U; done).
    assert (T * 2 ^ 1900 ≤ 2 ^ 2000) by (subst T; done).
    remember (2 ^ 1900) as A. remember (2 ^ 2000) as B. nia. }
  fold d in Hex. rewrite Hmin in Hex. change (0 + 1074) with 1074 in Hex.
  rewrite <- HeqU in Hex.
  cbn [SFunits]. rewrite Z.mul_1_l. apply Hex.
  rewrite <- Hpu.
  remember (2 ^ (d - 53 + 1074)) as X. remember (2 ^ (53 - d)) as Y.
  remember (2 ^ d) as D. nia.
Qed.

(** Without missing values the mean is the NumPy sum over the float of the
    length. *)
Lemma series_mean_no_nan (s : list float) :
  Forall (λ x, F64.isna x = false) s →
  series_mean s = (series_sum s / F64.of_nat (length s))%float.
Proof.
  intros Hs. unfold series_mean.
  assert (map (λ x, if F64.isna x then 0%float else x) s = s) as ->.
  { induction Hs as [|x s Hx _ IH]; [done|]. simpl. by rewrite Hx, IH. }
  assert (List.filter (λ x, negb (F64.isna x)) s = s) as ->.
  { induction Hs as [|x s Hx _ IH]; [done|]. simpl. by rewrite Hx, IH. }
  by destruct s.
Qed.

(** The mean of a column of quality scores, each in [[0, 1]]: the NumPy sum
    of the column divided by the exact number of values, and the sum is the
    exact sum within [n + 1] roundings. *)
Lemma series_mean_unit (s : list float) :
  Forall (F64.within 0 1) s →
  Z.of_nat (length s) < 2 ^ 52 →
  ∃ total count : float,
    series_mean s = (total / count)%float
    ∧ units count = Z.of_nat (length s) * 2 ^ 1074
    ∧ nonneg total = true
    ∧ 2 ^ 52 * Z.abs (units total - exact_sum s)
      ≤ (Z.of_nat (length s) + 1) * exact_sum s.
Proof.
  intros Hs Hlen.
  destruct (exact_sum_unit s Hs) as [Hnn Hsum].
  assert (Hbig : 2 ^ 52 * 2 ^ 1074 < 2 ^ 1999).
  { rewrite <- pow2_split by lia. apply Z.pow_lt_mono_r; lia. }
  assert (H53 : 2 ^ 52 < 2 ^ 53) by (apply Z.pow_lt_mono_r; lia).
  assert (HU : 0 < 2 ^ 1074) by (apply Z.pow_pos_nonneg; lia).
  exists (series_sum s), (F64.of_nat (length s)).
  split.
  { apply series_mean_no_nan. eapply Forall_impl; [exact Hnn|].
    intros x. apply nonneg_not_nan. }
  split; [apply of_nat_exact; lia|].
  destruct (series_sum_near s Hnn Hlen) as (Htot & _ & Herr); [|done].
  remember (2 ^ 1074) as U. remember (2 ^ 1999) as B. remember (2 ^ 52) as T.
  nia.
Qed.

End Summation.

(** ** A generator to run the program on *)

(** Samples that alternate between the two ends of the range; it keeps the
    contract of [NumpyRandom] and lets the examples below be evaluated. *)
Definition two_point_sample (low high : float) (g : Z) : float * Z :=
  (if Z.even g then low else (low + (high - low))%float, g + 1).

Lemma two_point_sample_range (low high : float) (g : Z) :
  PrimFloat.is_finite (high - low) = true →
  PrimFloat.leb low (low + (high - low)) = true →
  F64.within low (low + (high - low)) (two_point_sample low high g).1.
Proof.
  intros _ Hlt. destruct (leb_not_nan _ _ Hlt) as [Hlo Htop].
  apply leb_refl in Hlo, Htop.
  unfold two_point_sample, F64.within. simpl. by destruct (Z.even g).
Qed.

Definition two_point : NumpyRandom :=
  {| rng_state := Z;
     seeded := λ n, n;
     sample := two_point_sample;
     sample_range := two_point_sample_range |}.

(** ** Tables, row by row *)

Section Rows.

Lemma zip_with_map_self {A B C} (f : B → A → C) (g : A → B) (l : list A) :
  zip_with f (map g l) l = map (λ x, f (g x) x) l.
Proof. induction l as [|x l IH]; simpl; [done|]. by rewrite IH. Qed.

Lemma lookup_map {A B} (f : A → B) (l : list A) (i : nat) :
  map f l !! i = f <$> l !! i.
Proof.
  revert i. induction l as [|x l IH]; intros [|i]; simpl; done.
Qed.

Lemma poor_mask_rows (df : DataFrame) : poor_mask df = map is_poor df.
Proof.
  unfold poor_mask, series_or, series_gt, series_lt, column.
  induction df as [|r df IH]; simpl; [done|]. by rewrite IH.
Qed.

Lemma bool_index_filter (p : MeshElementRecord → bool) (df : DataFrame) :
  bool_index df (map p df) = List.filter p df.
Proof.
  induction df as [|r df IH]; simpl; [done|]. rewrite IH. by destruct (p r).
Qed.

Lemma loc_imul_rows (c : Column) (p : float → bool) (k : float)
    (df : DataFrame) :
  loc_imul (map p (column c df)) c k df
  = map (λ r, if p (row_get c r) then row_set c (row_get c r * k)%float r else r)
        df.
Proof.
  unfold loc_imul, column. rewrite map_map.
  apply (zip_with_map_self
           (λ (b : bool) r, if b then row_set c (row_get c r * k)%float r else r)).
Qed.

Lemma clip_column_rows (c : Column) (lo hi : float) (df : DataFrame) :
  set_column c (clip lo hi (column c df)) df
  = map (λ r, row_set c (clip1 lo hi (row_get c r)) r) df.
Proof.
  unfold set_column, clip, column. rewrite map_map.
  apply (zip_with_map_self (row_set c)).
Qed.

Lemma adjusted_rows (df : DataFrame) : adjusted df = map adjust_row df.
Proof.
  unfold adjusted, series_gt, series_lt.
  rewrite !loc_imul_rows, !clip_column_rows, !map_map.
  apply map_ext. intros [i a j s q].
  unfold adjust_row, adjust_value, scale_value. simpl.
  unfold F64.gt, F64.lt.
  destruct (PrimFloat.ltb 3.5 a); simpl;
    destruct (PrimFloat.ltb j 0.5); simpl;
    destruct (PrimFloat.ltb 0.6 s); simpl;
    destruct (PrimFloat.ltb q 0.6); reflexivity.
Qed.

End Rows.

(** ** What each method does to the state *)

Section Runs.
Context `{NumpyRandom}.

Ltac fields := cbn [num_elements mesh_data heap np_random files fst snd].

(** Unfold one method down to matches on the state. *)
Ltac unfold_run :=
  unfold self_mesh, ensure_mesh, imul_where, clip_column, update, deref,
    new_frame, self_mesh_data, self_num_elements, set_self_mesh_data,
    np_random_seed, np_random_uniform, np_random_uniform1, DataFrame_new,
    int_truediv, raise;
  unfold mbind, M_bind, mret, M_ret; fields.

(** Look the object just stored up again, as often as the method does. *)
Ltac lookups := repeat (rewrite lookup_insert_eq; fields).

(** *** The generator *)

Lemma generate_mesh_run (w : World) :
  0 ≤ num_elements w →
  generate_mesh w
  = match (generated (num_elements w)).1 with
    | Some df =>
        (Ok (fresh (dom (heap w))),
         mkWorld (num_elements w) (Some (fresh (dom (heap w))))
                 (<[fresh (dom (heap w)) := df]> (heap w))
                 (generated (num_elements w)).2 (files w))
    | None =>
        (Raise ValueError,
         mkWorld (num_elements w) (mesh_data w) (heap w)
                 (generated (num_elements w)).2 (files w))
    end.
Proof.
  intros Hn. destruct w as [n md h g fs]. fields. simpl in Hn.
  unfold generate_mesh, generated. unfold_run.
  assert ((n <? 0) = false) as -> by lia.
  destruct (samples 1 5 (Z.to_nat n) (seeded 42)) as [a g1]. fields.
  destruct (samples 0.3 1 (Z.to_nat n) g1) as [j g2]. fields.
  destruct (samples 0 0.8 (Z.to_nat n) g2) as [s g3]. fields.
  destruct (samples 0.4 1 (Z.to_nat n) g3) as [q g4]. fields.
  by destruct (rows_of_columns (np_arange 1 (n + 1)) a j s q).
Qed.

Lemma generate_mesh_negative (w : World) :
  num_elements w < 0 →
  generate_mesh w
  = (Raise ValueError,
     mkWorld (num_elements w) (mesh_data w) (heap w) (seeded 42) (files w)).
Proof.
  intros Hn. destruct w as [n md h g fs]. simpl in Hn.
  unfold generate_mesh. unfold_run.
  by assert ((n <? 0) = true) as -> by lia.
Qed.

(** *** The columns that are drawn *)

Lemma samples_length (low high : float) (n : nat) (g : rng_state) :
  length (samples low high n g).1 = n.
Proof.
  revert g. induction n as [|n IH]; intros g; simpl; [done|].
  destruct (sample low high g) as [x g1]. specialize (IH g1).
  destruct (samples low high n g1) as [xs g2]. simpl in *. by rewrite IH.
Qed.

Lemma samples_range (low high : float) (n : nat) (g : rng_state) :
  PrimFloat.is_finite (high - low) = true →
  PrimFloat.leb low (low + (high - low)) = true →
  Forall (F64.within low (low + (high - low))) (samples low high n g).1.
Proof.
  intros Hfin Hlt. revert g. induction n as [|n IH]; intros g; simpl.
  { constructor. }
  pose proof (sample_range low high g Hfin Hlt) as Hx.
  destruct (sample low high g) as [x g1]. specialize (IH g1).
  destruct (samples low high n g1) as [xs g2]. simpl in *.
  by constructor.
Qed.

(** Five columns of one length make a table with these columns. *)
Lemma rows_of_columns_Some (ids : list Z) (a j s q : list float) :
  length a = length ids → length j = length ids →
  length s = length ids → length q = length ids →
  ∃ df, rows_of_columns ids a j s q = Some df
        ∧ map Element_ID df = ids
        ∧ column cAspect_Ratio df = a ∧ column cJacobian df = j
        ∧ column cSkewness df = s ∧ column cElement_Quality df = q.
Proof.
  revert a j s q.
  induction ids as [|i ids IH]; intros [|x a] [|y j] [|z s] [|t q];
    simpl; try done.
  { intros _ _ _ _. by exists []. }
  intros [= Ha] [= Hj] [= Hs] [= Hq].
  destruct (IH a j s q Ha Hj Hs Hq) as (df & -> & <- & <- & <- & <- & <-).
  eexists. split; [done|]. by simpl.
Qed.

Lemma generated_spec (n : Z) :
  0 ≤ n →
  ∃ df, (generated n).1 = Some df
        ∧ length df = Z.to_nat n
        ∧ map Element_ID df = seqZ 1 n
        ∧ Forall in_generation_ranges df.
Proof.
  intros Hn. unfold generated.
  pose proof (samples_length 1 5 (Z.to_nat n) (seeded 42)) as La.
  pose proof (samples_range 1 5 (Z.to_nat n) (seeded 42) eq_refl eq_refl) as Ra.
  change (1 + (5 - 1))%float with 5%float in Ra.
  destruct (samples 1 5 (Z.to_nat n) (seeded 42)) as [a g1].
  pose proof (samples_length 0.3 1 (Z.to_nat n) g1) as Lj.
  pose proof (samples_range 0.3 1 (Z.to_nat n) g1 eq_refl eq_refl) as Rj.
  change (0.3 + (1 - 0.3))%float with 1%float in Rj.
  destruct (samples 0.3 1 (Z.to_nat n) g1) as [j g2].
  pose proof (samples_length 0 0.8 (Z.to_nat n) g2) as Ls.
  pose proof (samples_range 0 0.8 (Z.to_nat n) g2 eq_refl eq_refl) as Rs.
  change (0 + (0.8 - 0))%float with 0.8%float in Rs.
  destruct (samples 0 0.8 (Z.to_nat n) g2) as [s g3].
  pose proof (samples_length 0.4 1 (Z.to_nat n) g3) as Lq.
  pose proof (samples_range 0.4 1 (Z.to_nat n) g3 eq_refl eq_refl) as Rq.
  change (0.4 + (1 - 0.4))%float with 1%float in Rq.
  destruct (samples 0.4 1 (Z.to_nat n) g3) as [q g4].
  simpl in *. unfold np_arange. replace (n + 1 - 1) with n by lia.
  destruct (rows_of_columns_Some (seqZ 1 n) a j s q)
    as (df & Hdf & Hid & Ha & Hj & Hs & Hq);
    rewrite ?length_seqZ; try done.
  exists df. split; [done|]. split; [|split; [done|]].
  - by rewrite <- (length_map Element_ID), Hid, length_seqZ.
  - subst a j s q. unfold column in *.
    rewrite Forall_map in Ra, Rj, Rs, Rq.
    rewrite List.Forall_forall in *. intros r Hr. unfold in_generation_ranges.
    specialize (Ra r Hr). specialize (Rj r Hr). specialize (Rs r Hr).
    specialize (Rq r Hr). done.
Qed.

(** *** The other methods on a cached table *)

Lemma ensure_mesh_cached (w : World) (l : ref) :
  mesh_data w = Some l → ensure_mesh w = (Ok (), w).
Proof. intros Hmd. unfold_run. by rewrite Hmd. Qed.

Lemma self_mesh_cached (w : World) (l : ref) (df : DataFrame) :
  mesh_data w = Some l → heap w !! l = Some df → self_mesh w = (Ok df, w).
Proof. intros Hmd Hl. unfold_run. rewrite Hmd. fields. by rewrite Hl. Qed.

Lemma analyze_mesh_quality_cached (w : World) (l : ref) (df : DataFrame) :
  mesh_data w = Some l →
  heap w !! l = Some df →
  analyze_mesh_quality w
  = (match df with
     | [] => Raise ZeroDivisionError
     | _ => Ok (report_of df (bool_index df (poor_mask df)),
                fresh (dom (heap w)))
     end,
     mkWorld (num_elements w) (mesh_data w)
             (<[fresh (dom (heap w)) := bool_index df (poor_mask df)]> (heap w))
             (np_random w) (files w)).
Proof.
  destruct w as [n md h g fs]. fields. intros -> Hl.
  unfold analyze_mesh_quality. unfold_run. rewrite Hl. fields. lookups.
  by destruct df.
Qed.

Lemma optimize_mesh_cached (w : World) (l : ref) (df : DataFrame) :
  mesh_data w = Some l →
  heap w !! l = Some df →
  optimize_mesh w
  = (Ok (fresh (dom (heap w))),
     mkWorld (num_elements w) (mesh_data w)
             (<[fresh (dom (heap w)) := adjusted df]> (heap w))
             (np_random w) (files w)).
Proof.
  destruct w as [n md h g fs]. fields. intros -> Hl.
  unfold optimize_mesh. unfold_run. rewrite Hl. fields. lookups.
  by rewrite !insert_insert_eq.
Qed.

Lemma compute_optimization_metrics_cached (w : World) (l lo : ref)
    (orig opt : DataFrame) :
  mesh_data w = Some l →
  heap w !! l = Some orig →
  heap w !! lo = Some opt →
  compute_optimization_metrics lo w
  = (Ok (mkMetrics
           (series_mean (column cElement_Quality orig))
           (series_mean (column cElement_Quality opt))
           (improvement_of (series_mean (column cElement_Quality opt))
                           (series_mean (column cElement_Quality orig)))
           (sample 18 22 (np_random w)).1),
     mkWorld (num_elements w) (mesh_data w) (heap w)
             (sample 18 22 (np_random w)).2 (files w)).
Proof.
  destruct w as [n md h g fs]. fields. intros -> Hl Hlo.
  unfold compute_optimization_metrics. unfold_run. rewrite Hl. fields.
  rewrite Hlo. fields. by destruct (sample 18 22 g).
Qed.

Lemma fresh_heap (h : gmap ref DataFrame) : h !! fresh (dom h) = None.
Proof. apply not_elem_of_dom, is_fresh. Qed.

Lemma fresh_heap_ne (h : gmap ref DataFrame) (l : ref) (df : DataFrame) :
  h !! l = Some df → fresh (dom h) ≠ l.
Proof. intros Hl <-. by rewrite fresh_heap in Hl. Qed.

(** Sequencing. *)
Lemma bind_Ok {A B} (m : M A) (f : A → M B) (w w' : World) (a : A) :
  m w = (Ok a, w') → (m ≫= f) w = f a w'.
Proof. intros Hm. unfold mbind, M_bind. by rewrite Hm. Qed.

Lemma bind_Raise {A B} (m : M A) (f : A → M B) (w w' : World) (e : exn) :
  m w = (Raise e, w') → (m ≫= f) w = (Raise e, w').
Proof. intros Hm. unfold mbind, M_bind. by rewrite Hm. Qed.

(** ** The classifier *)

Lemma is_poor_spec (r : MeshElementRecord) :
  is_poor r = true ↔ meets_a_threshold r.
Proof.
  unfold is_poor, meets_a_threshold, threshold.
  rewrite !orb_true_iff. tauto.
Qed.

Lemma filter_sublist (p : MeshElementRecord → bool) (df : DataFrame) :
  sublist (List.filter p df) df.
Proof.
  induction df as [|r df IH]; simpl; [constructor|].
  destruct (p r); by constructor.
Qed.

(** C1: on a cached dataset that is not empty, [analyze_mesh_quality]
    returns a report and the table of poor records; the mask flags a record
    exactly when [Aspect_Ratio > 3.5] or [Jacobian < 0.5] or [Skewness > 0.6]
    or [Element_Quality < 0.6]; the poor table holds exactly the flagged
    records, in the order of the input; and [Poor_Quality_Elements] is the
    number of its rows. *)
Theorem analyze_mesh_quality_flags_poor (w : World) (l : ref)
    (df : DataFrame) :
  mesh_data w = Some l →
  heap w !! l = Some df →
  df ≠ [] →
  ∃ report poor_elements poor w',
    analyze_mesh_quality w = (Ok (report, poor_elements), w')
    ∧ heap w' !! poor_elements = Some poor
    ∧ (∀ i r, df !! i = Some r →
              (poor_mask df !! i = Some true ↔ meets_a_threshold r))
    ∧ (∀ r, r ∈ poor ↔ r ∈ df ∧ meets_a_threshold r)
    ∧ poor = List.filter is_poor df
    ∧ sublist poor df
    ∧ Poor_Quality_Elements report = length poor
    ∧ Total_Elements report = length df.
Proof.
  intros Hmd Hl Hne.
  rewrite (analyze_mesh_quality_cached w l df Hmd Hl).
  rewrite poor_mask_rows, bool_index_filter.
  destruct df as [|r0 df0]; [done|]. set (df := r0 :: df0) in *.
  eexists _, _, (List.filter is_poor df), _. split; [reflexivity|].
  fields. rewrite lookup_insert_eq. split; [done|].
  split; [|split; [|split; [done|split; [apply filter_sublist|done]]]].
  - intros i r Hr. rewrite lookup_map, Hr. simpl.
    rewrite <- is_poor_spec. split; [by intros [= ->] | by intros ->].
  - intros r. rewrite <- is_poor_spec, !list_elem_of_In. apply filter_In.
Qed.

(** ** The adjuster *)

Lemma adjust_value_within (c : Column) (x : float) :
  PrimFloat.is_nan x = false →
  F64.within (lower c) (upper c) (adjust_value c x).
Proof.
  intros Hx. unfold adjust_value. apply clip1_within.
  { by destruct c. }
  unfold scale_value. destruct (threshold c x); [|done].
  destruct c; by eapply mul_finite_not_nan.
Qed.

Lemma adjusted_length (df : DataFrame) : length (adjusted df) = length df.
Proof. by rewrite adjusted_rows, length_map. Qed.

Lemma adjusted_ids (df : DataFrame) :
  map Element_ID (adjusted df) = map Element_ID df.
Proof. by rewrite adjusted_rows, map_map. Qed.

Lemma adjusted_lookup (df : DataFrame) (i : nat) :
  adjusted df !! i = adjust_row <$> df !! i.
Proof. by rewrite adjusted_rows, lookup_map. Qed.

(** C2: on a cached dataset [optimize_mesh] returns a table in which every
    attribute that is a number in the input (not a NaN) lies in its clamp
    range -- [Aspect_Ratio] in [1.0, 4.0], [Jacobian] in [0.3, 1.0],
    [Skewness] in [0.0, 0.7], [Element_Quality] in [0.5, 1.0] -- whether or
    not a threshold condition held for the record. *)
Theorem optimize_mesh_within_clamp_ranges (w : World) (l : ref)
    (df : DataFrame) :
  mesh_data w = Some l →
  heap w !! l = Some df →
  ∃ optimized_mesh w' df',
    optimize_mesh w = (Ok optimized_mesh, w')
    ∧ heap w' !! optimized_mesh = Some df'
    ∧ length df' = length df
    ∧ ∀ i r r', df !! i = Some r → df' !! i = Some r' →
        (F64.isna (Aspect_Ratio r) = false →
         F64.within 1.0 4.0 (Aspect_Ratio r'))
        ∧ (F64.isna (Jacobian r) = false →
           F64.within 0.3 1.0 (Jacobian r'))
        ∧ (F64.isna (Skewness r) = false →
           F64.within 0.0 0.7 (Skewness r'))
        ∧ (F64.isna (Element_Quality r) = false →
           F64.within 0.5 1.0 (Element_Quality r')).
Proof.
  intros Hmd Hl. rewrite (optimize_mesh_cached w l df Hmd Hl).
  eexists _, _, (adjusted df). split; [reflexivity|]. fields.
  rewrite lookup_insert_eq. split; [done|]. split; [apply adjusted_length|].
  intros i r r' Hr. rewrite adjusted_lookup, Hr. simpl. intros [= <-].
  unfold adjust_row, F64.isna. simpl.
  split; [|split; [|split]]; intros Hx.
  - apply (adjust_value_within cAspect_Ratio _ Hx).
  - apply (adjust_value_within cJacobian _ Hx).
  - apply (adjust_value_within cSkewness _ Hx).
  - apply (adjust_value_within cElement_Quality _ Hx).
Qed.

(** C4: on a cached dataset [optimize_mesh] returns a new object with as many
    rows as the input and the same [Element_ID] column, row for row; the
    cached dataset and every other object are as they were. *)
Theorem optimize_mesh_keeps_ids_and_input (w : World) (l : ref)
    (df : DataFrame) :
  mesh_data w = Some l →
  heap w !! l = Some df →
  ∃ optimized_mesh w' df',
    optimize_mesh w = (Ok optimized_mesh, w')
    ∧ heap w !! optimized_mesh = None
    ∧ optimized_mesh ≠ l
    ∧ heap w' !! optimized_mesh = Some df'
    ∧ length df' = length df
    ∧ map Element_ID df' = map Element_ID df
    ∧ mesh_data w' = Some l
    ∧ heap w' !! l = Some df
    ∧ ∀ k, k ≠ optimized_mesh → heap w' !! k = heap w !! k.
Proof.
  intros Hmd Hl. rewrite (optimize_mesh_cached w l df Hmd Hl).
  eexists _, _, (adjusted df). split; [reflexivity|]. fields.
  pose proof (fresh_heap_ne _ _ _ Hl) as Hne.
  repeat split.
  - apply fresh_heap.
  - done.
  - by rewrite lookup_insert_eq.
  - apply adjusted_length.
  - apply adjusted_ids.
  - done.
  - by rewrite lookup_insert_ne.
  - intros k Hk. by rewrite lookup_insert_ne.
Qed.

Lemma optimize_twice_cached (w : World) (l : ref) (df : DataFrame) :
  mesh_data w = Some l →
  heap w !! l = Some df →
  ∃ first second w',
    optimize_twice w = (Ok (first, second), w')
    ∧ first ≠ second
    ∧ heap w' !! first = Some (adjusted df)
    ∧ heap w' !! second = Some (adjusted (adjusted df)).
Proof.
  intros Hmd Hl. unfold optimize_twice.
  rewrite (bind_Ok _ _ _ _ _ (optimize_mesh_cached w l df Hmd Hl)).
  set (first := fresh (dom (heap w))).
  set (w1 := mkWorld _ _ (<[first := adjusted df]> (heap w)) _ _).
  unfold set_self_mesh_data at 1. unfold mbind at 1, M_bind at 1.
  set (w2 := mkWorld _ (Some first) (heap w1) _ _).
  assert (heap w2 !! first = Some (adjusted df)) as Hfirst.
  { subst w2 w1. fields. by rewrite lookup_insert_eq. }
  rewrite (bind_Ok _ _ _ _ _
             (optimize_mesh_cached w2 first (adjusted df) eq_refl Hfirst)).
  eexists _, _, _. split; [reflexivity|]. fields.
  pose proof (fresh_heap_ne _ _ _ Hfirst) as Hne.
  split; [done|]. split; [by rewrite lookup_insert_ne | by rewrite lookup_insert_eq].
Qed.

Lemma adjust_row_get (c : Column) (r : MeshElementRecord) :
  row_get c (adjust_row r) = adjust_value c (row_get c r).
Proof. by destruct c. Qed.

Lemma adjust_value_again (c : Column) (x : float) :
  adjust_value c (adjust_value c x)
  = if threshold c (adjust_value c x)
    then clip1 (lower c) (upper c) (adjust_value c x * factor c)
    else adjust_value c x.
Proof.
  unfold adjust_value at 1. unfold scale_value at 1.
  destruct (threshold c (adjust_value c x)); [done|].
  unfold adjust_value. apply clip1_idem. by destruct c.
Qed.

(** C3, as the code has it: run on its own output, [optimize_mesh] returns a
    table with the same rows and [Element_ID]s in which an attribute that no
    longer meets its threshold condition is unchanged (it is within the clamp
    bounds, so clamping leaves it), and an attribute that still meets its
    condition is scaled and clamped once more. *)
Theorem optimize_twice_rescales_only_past_threshold (w : World) (l : ref)
    (df : DataFrame) :
  mesh_data w = Some l →
  heap w !! l = Some df →
  ∃ first second w' df1 df2,
    optimize_twice w = (Ok (first, second), w')
    ∧ heap w' !! first = Some df1
    ∧ heap w' !! second = Some df2
    ∧ length df2 = length df1
    ∧ ∀ i r1 r2, df1 !! i = Some r1 → df2 !! i = Some r2 →
        Element_ID r2 = Element_ID r1
        ∧ ∀ c, row_get c r2 =
               if threshold c (row_get c r1)
               then clip1 (lower c) (upper c) (row_get c r1 * factor c)
               else row_get c r1.
Proof.
  intros Hmd Hl.
  destruct (optimize_twice_cached w l df Hmd Hl)
    as (first & second & w' & Hrun & _ & H1 & H2).
  exists first, second, w', (adjusted df), (adjusted (adjusted df)).
  split; [done|]. split; [done|]. split; [done|].
  split; [apply adjusted_length|].
  intros i r1 r2. rewrite (adjusted_lookup (adjusted df)).
  intros Hr1. rewrite Hr1. simpl. intros [= <-].
  split; [done|]. intros c.
  rewrite adjusted_lookup in Hr1.
  destruct (df !! i) as [r|]; [|done]. simpl in Hr1. injection Hr1 as <-.
  rewrite !adjust_row_get. apply adjust_value_again.
Qed.

(** ** The generator *)

(** C9: for a positive element count [generate_mesh] returns (and caches) a
    table of exactly that many records whose [Element_ID]s are 1, 2, ... in
    order and whose attributes lie in the ranges they are drawn from (the
    range of a NumPy sample is the contract of [NumpyRandom]). *)
Theorem generate_mesh_records (w : World) :
  0 < num_elements w →
  ∃ l w' df,
    generate_mesh w = (Ok l, w')
    ∧ mesh_data w' = Some l
    ∧ heap w' !! l = Some df
    ∧ length df = Z.to_nat (num_elements w)
    ∧ map Element_ID df = seqZ 1 (num_elements w)
    ∧ (∀ i r, df !! i = Some r → Element_ID r = Z.of_nat i + 1)
    ∧ ∀ r, r ∈ df →
        F64.within 1.0 5.0 (Aspect_Ratio r)
        ∧ F64.within 0.3 1.0 (Jacobian r)
        ∧ F64.within 0.0 0.8 (Skewness r)
        ∧ F64.within 0.4 1.0 (Element_Quality r).
Proof.
  intros Hn. rewrite generate_mesh_run by lia.
  destruct (generated_spec (num_elements w)) as (df & -> & Hlen & Hid & Hrange);
    [lia|].
  eexists _, _, df. split; [reflexivity|]. fields.
  rewrite lookup_insert_eq. repeat (split; [done|]). split.
  - intros i r Hr.
    assert (map Element_ID df !! i = Some (Element_ID r)) as Hi.
    { by rewrite lookup_map, Hr. }
    rewrite Hid in Hi. apply lookup_seqZ in Hi. lia.
  - intros r Hr%list_elem_of_In.
    rewrite List.Forall_forall in Hrange. apply (Hrange r Hr).
Qed.

(** C6, as the code has it: [generate_mesh] fails exactly on a negative
    element count, with the [ValueError] of the first draw (negative
    dimensions); for zero it returns an empty table, and for every count that
    is not negative a table of that many records. *)
Theorem generate_mesh_fails_iff_negative (w : World) :
  (num_elements w < 0 →
   ∃ w', generate_mesh w = (Raise ValueError, w'))
  ∧ (0 ≤ num_elements w →
     ∃ l w' df,
       generate_mesh w = (Ok l, w')
       ∧ heap w' !! l = Some df
       ∧ length df = Z.to_nat (num_elements w)).
Proof.
  split; intros Hn.
  - rewrite generate_mesh_negative by done. by eexists.
  - rewrite generate_mesh_run by done.
    destruct (generated_spec (num_elements w) Hn) as (df & -> & Hlen & _).
    eexists _, _, df. split; [reflexivity|]. fields.
    by rewrite lookup_insert_eq.
Qed.

(** ** The comparator *)


(** C7, as the code has it: when the mean [Element_Quality] of the cached
    dataset is zero, [compute_optimization_metrics] raises nothing: line 79
    divides two NumPy floats, and the [Improvement_Percentage] it returns is
    an infinity or a NaN. *)
Theorem compute_optimization_metrics_zero_mean (w : World) (l lo : ref)
    (original adjusted_df : DataFrame) :
  mesh_data w = Some l →
  heap w !! l = Some original →
  heap w !! lo = Some adjusted_df →
  PrimFloat.eqb (series_mean (column cElement_Quality original)) 0 = true →
  ∃ metrics w',
    compute_optimization_metrics lo w = (Ok metrics, w')
    ∧ PrimFloat.is_finite (Improvement_Percentage metrics) = false.
Proof.
  intros Hmd Hl Hlo Hzero.
  rewrite (compute_optimization_metrics_cached w l lo _ _ Hmd Hl Hlo).
  eexists _, _. split; [reflexivity|]. simpl.
  by apply div_zero_times_100_not_finite.
Qed.

(** ** Generating on demand *)

Lemma generate_mesh_Ok (w w' : World) (l : ref) :
  generate_mesh w = (Ok l, w') →
  mesh_data w' = Some l
  ∧ ∃ df, heap w' !! l = Some df ∧ length df = Z.to_nat (num_elements w).
Proof.
  destruct (Z.lt_ge_cases (num_elements w) 0) as [Hn | Hn].
  { by rewrite generate_mesh_negative. }
  rewrite generate_mesh_run by done.
  destruct (generated_spec (num_elements w) Hn) as (df & -> & Hlen & _).
  intros [= <- <-]. fields. split; [done|]. exists df.
  by rewrite lookup_insert_eq.
Qed.

Lemma generate_mesh_not_TypeError (w w' : World) (e : exn) :
  generate_mesh w = (Raise e, w') → e = ValueError.
Proof.
  destruct (Z.lt_ge_cases (num_elements w) 0) as [Hn | Hn].
  { rewrite generate_mesh_negative by done. by intros [= <- _]. }
  rewrite generate_mesh_run by done.
  by destruct (generated_spec (num_elements w) Hn) as (df & -> & _).
Qed.

(** A method that starts with the test of lines 33-34 behaves, with nothing
    cached, as [generate_mesh] followed by itself. *)
Lemma ensure_mesh_generates {A} (k : M A) (w : World) :
  mesh_data w = None →
  (ensure_mesh ;; k) w = (generate_mesh ;; (ensure_mesh ;; k)) w.
Proof.
  intros Hmd. unfold ensure_mesh at 1.
  unfold mbind, M_bind, self_mesh_data, mret, M_ret. rewrite Hmd.
  destruct (generate_mesh w) as [[l | e] w1] eqn:Hgen; [|done].
  apply generate_mesh_Ok in Hgen as [Hmd1 _].
  by rewrite (ensure_mesh_cached w1 l Hmd1).
Qed.

Lemma generate_mesh_nonneg (w : World) :
  0 ≤ num_elements w →
  ∃ l w' df,
    generate_mesh w = (Ok l, w')
    ∧ mesh_data w' = Some l
    ∧ heap w' !! l = Some df
    ∧ length df = Z.to_nat (num_elements w).
Proof.
  intros Hn. rewrite generate_mesh_run by done.
  destruct (generated_spec (num_elements w) Hn) as (df & -> & Hlen & _).
  eexists _, _, df. split; [reflexivity|]. fields.
  by rewrite lookup_insert_eq.
Qed.

(** C10: with nothing cached, [analyze_mesh_quality] and [optimize_mesh]
    behave exactly as [generate_mesh] followed by the same method (same
    result, same state); for a positive element count both return a result,
    and neither ever raises the [TypeError] of a missing dataset.  With a
    dataset cached neither regenerates: the cached reference, its table and
    the random generator are left as they were. *)
Theorem methods_generate_on_demand (w : World) :
  (mesh_data w = None →
   analyze_mesh_quality w = (generate_mesh ;; analyze_mesh_quality) w
   ∧ optimize_mesh w = (generate_mesh ;; optimize_mesh) w
   ∧ (0 < num_elements w →
      (∃ r w', analyze_mesh_quality w = (Ok r, w'))
      ∧ (∃ l w', optimize_mesh w = (Ok l, w')))
   ∧ (∀ e w', analyze_mesh_quality w = (Raise e, w') → e ≠ TypeError)
   ∧ (∀ e w', optimize_mesh w = (Raise e, w') → e ≠ TypeError))
  ∧ (∀ l df, mesh_data w = Some l → heap w !! l = Some df →
     (∃ o w', analyze_mesh_quality w = (o, w')
              ∧ mesh_data w' = Some l ∧ heap w' !! l = Some df
              ∧ np_random w' = np_random w)
     ∧ (∃ l' w', optimize_mesh w = (Ok l', w')
                 ∧ mesh_data w' = Some l ∧ heap w' !! l = Some df
                 ∧ np_random w' = np_random w)).
Proof.
  split.
  - intros Hmd.
    assert (analyze_mesh_quality w
            = (generate_mesh ;; analyze_mesh_quality) w) as Ha.
    { apply (ensure_mesh_generates _ w Hmd). }
    assert (optimize_mesh w = (generate_mesh ;; optimize_mesh) w) as Ho.
    { apply (ensure_mesh_generates _ w Hmd). }
    split; [done|]. split; [done|].
    rewrite Ha, Ho. unfold mbind, M_bind.
    destruct (generate_mesh w) as [[l | e] w1] eqn:Hgen.
    + pose proof Hgen as Hgen'.
      apply generate_mesh_Ok in Hgen as (Hmd1 & df & Hl1 & Hlen).
      rewrite (analyze_mesh_quality_cached w1 l df Hmd1 Hl1).
      rewrite (optimize_mesh_cached w1 l df Hmd1 Hl1).
      split; [|split].
      * intros Hn. destruct df as [|r df]; [simpl in Hlen; lia|].
        split; by eexists _, _.
      * intros e w'. by destruct df; intros [= <- _].
      * done.
    + pose proof Hgen as ->%generate_mesh_not_TypeError.
      split; [|split].
      * intros Hn.
        destruct (generate_mesh_nonneg w) as (? & ? & ? & Hok & _); [lia|].
        by rewrite Hok in Hgen.
      * by intros e w' [= <- _].
      * by intros e w' [= <- _].
  - intros l df Hmd Hl.
    rewrite (analyze_mesh_quality_cached w l df Hmd Hl).
    rewrite (optimize_mesh_cached w l df Hmd Hl).
    pose proof (fresh_heap_ne _ _ _ Hl) as Hne.
    split; eexists _, _; (split; [reflexivity|]); fields;
      by rewrite lookup_insert_ne.
Qed.

(** ** A whole run *)

Variable float_repr : float → string.

Lemma to_csv_run (w : World) (l : ref) (df : DataFrame) (name : string) :
  heap w !! l = Some df →
  to_csv float_repr l name w
  = (Ok (), mkWorld (num_elements w) (mesh_data w) (heap w) (np_random w)
                    (<[name := csv_text float_repr df]> (files w))).
Proof. intros Hl. unfold to_csv, write_file. unfold_run. by rewrite Hl. Qed.

(** What a run with a positive element count returns and leaves behind. *)
Lemma main_with_run (n : Z) (w : World) :
  0 < n →
  ∃ df,
    (generated n).1 = Some df
    ∧ let mesh := fresh (dom (heap w)) in
      let h1 := <[mesh := df]> (heap w) in
      let poor := bool_index df (poor_mask df) in
      let poor_elements := fresh (dom h1) in
      let h2 := <[poor_elements := poor]> h1 in
      let optimized_mesh := fresh (dom h2) in
      let h3 := <[optimized_mesh := adjusted df]> h2 in
      let g := (generated n).2 in
      main_with float_repr n w
      = (Ok (mkLocals mesh (report_of df poor) poor_elements optimized_mesh
               (mkMetrics
                  (series_mean (column cElement_Quality df))
                  (series_mean (column cElement_Quality (adjusted df)))
                  (improvement_of
                     (series_mean (column cElement_Quality (adjusted df)))
                     (series_mean (column cElement_Quality df)))
                  (sample 18 22 g).1)),
         mkWorld n (Some mesh) h3 (sample 18 22 g).2
           (<["poor_quality_elements.csv" := csv_text float_repr poor]>
              (<["optimized_mesh_data.csv" :=
                   csv_text float_repr (adjusted df)]>
                 (<["original_mesh_data.csv" := csv_text float_repr df]>
                    (files w))))).
Proof.
  intros Hn.
  destruct (generated_spec n) as (df & Hgen & Hlen & _); [lia|].
  exists df. split; [done|]. intros mesh h1 poor poor_elements h2
    optimized_mesh h3 g.
  assert (df ≠ []) as Hdf. { intros ->. simpl in Hlen. lia. }
  assert (h1 !! mesh = Some df) as H1 by apply lookup_insert_eq.
  assert (h2 !! mesh = Some df) as H2.
  { subst h2. rewrite lookup_insert_ne; [done|]. by eapply fresh_heap_ne. }
  assert (h3 !! mesh = Some df) as H3.
  { subst h3. rewrite lookup_insert_ne; [done|]. by eapply fresh_heap_ne. }
  assert (h3 !! poor_elements = Some poor) as H3p.
  { subst h3. rewrite lookup_insert_ne.
    - apply lookup_insert_eq.
    - eapply fresh_heap_ne. apply lookup_insert_eq. }
  assert (h3 !! optimized_mesh = Some (adjusted df)) as H3o
    by apply lookup_insert_eq.
  unfold main_with.
  unfold MeshOptimizer_init at 1. unfold mbind at 1, M_bind at 1.
  set (w0 := mkWorld n None (heap w) (np_random w) (files w)).
  pose proof (generate_mesh_run w0 ltac:(simpl; lia)) as Hrun.
  unfold w0 in Hrun at 2 3 4 5 6 7 8.
  cbn [num_elements mesh_data heap np_random files] in Hrun.
  rewrite Hgen in Hrun. erewrite bind_Ok by exact Hrun. clear Hrun.
  erewrite bind_Ok; cycle 1.
  { erewrite analyze_mesh_quality_cached; [|reflexivity|exact H1].
    destruct df; [done | reflexivity]. }
  erewrite bind_Ok; cycle 1.
  { erewrite optimize_mesh_cached; [reflexivity|reflexivity|exact H2]. }
  erewrite bind_Ok; cycle 1.
  { erewrite compute_optimization_metrics_cached;
      [reflexivity|reflexivity|exact H3|exact H3o]. }
  erewrite bind_Ok; cycle 1.
  { erewrite to_csv_run; [reflexivity|exact H3]. }
  erewrite bind_Ok; cycle 1.
  { erewrite to_csv_run; [reflexivity|exact H3o]. }
  erewrite bind_Ok; cycle 1.
  { erewrite to_csv_run; [reflexivity|exact H3p]. }
  reflexivity.
Qed.

Lemma main_with_Ok_positive (n : Z) (w w' : World) (r : main_locals) :
  main_with float_repr n w = (Ok r, w') → 0 < n.
Proof.
  intros Hrun. destruct (Z.lt_ge_cases 0 n) as [|Hn]; [done|]. exfalso.
  revert Hrun. unfold main_with.
  unfold MeshOptimizer_init at 1. unfold mbind at 1, M_bind at 1.
  set (w0 := mkWorld n None (heap w) (np_random w) (files w)).
  destruct (Z.lt_ge_cases n 0) as [Hneg | Hnn].
  - erewrite bind_Raise; [done|].
    by apply (generate_mesh_negative w0).
  - destruct (generate_mesh_nonneg w0 Hnn) as (l & w1 & df & Hgen & Hmd & Hl & Hlen).
    erewrite bind_Ok by exact Hgen.
    assert (df = []) as ->.
    { apply length_zero_iff_nil. rewrite Hlen. simpl. lia. }
    erewrite bind_Raise; [done|].
    by rewrite (analyze_mesh_quality_cached w1 l [] Hmd Hl).
Qed.

Lemma pair_Ok_inj {A} (a b : A) (w w' : World) :
  (Ok a, w) = (Ok b, w') → a = b ∧ w = w'.
Proof. by intros [= -> ->]. Qed.

(** Two runs with one element count end with the same values, objects and
    generator state, whatever state the generator started in. *)
Lemma main_with_same_locals (n : Z) (g1 g2 : rng_state)
    (fs1 fs2 : gmap string string) (r1 r2 : main_locals) (w1 w2 : World) :
  main_with float_repr n (boot g1 fs1) = (Ok r1, w1) →
  main_with float_repr n (boot g2 fs2) = (Ok r2, w2) →
  r1 = r2 ∧ heap w1 = heap w2 ∧ np_random w1 = np_random w2.
Proof.
  intros Hrun1 Hrun2.
  pose proof (main_with_Ok_positive _ _ _ _ Hrun1) as Hn.
  destruct (main_with_run n (boot g1 fs1) Hn) as (df & Hgen & Hmain1).
  destruct (main_with_run n (boot g2 fs2) Hn) as (df' & Hgen' & Hmain2).
  rewrite Hgen in Hgen'. injection Hgen' as <-.
  cbv zeta in Hmain1, Hmain2. cbn [heap files boot] in Hmain1, Hmain2.
  rewrite Hmain1 in Hrun1. rewrite Hmain2 in Hrun2.
  apply pair_Ok_inj in Hrun1 as [<- <-]. apply pair_Ok_inj in Hrun2 as [<- <-].
  done.
Qed.

(** C8, as the code has it: two runs with the same positive element count,
    from any two states of the random generator and of the working
    directory, return the same values -- the generated dataset, the analysis,
    the poor records, the adjusted dataset and all four metrics,
    [Computational_Time_Reduction] among them, which is drawn from the
    generator that [generate_mesh] seeded -- and write the same text to the
    three CSV files. *)
Theorem main_with_reproducible (n : Z) (g1 g2 : rng_state)
    (fs1 fs2 : gmap string string) :
  0 < n →
  ∃ locals w1 w2 mesh poor optimized,
    main_with float_repr n (boot g1 fs1) = (Ok locals, w1)
    ∧ main_with float_repr n (boot g2 fs2) = (Ok locals, w2)
    ∧ heap w1 = heap w2
    ∧ heap w1 !! l_mesh_data locals = Some mesh
    ∧ heap w1 !! l_poor_elements locals = Some poor
    ∧ heap w1 !! l_optimized_mesh locals = Some optimized
    ∧ (∀ w, w = w1 ∨ w = w2 →
         files w !! "original_mesh_data.csv"
         = Some (csv_text float_repr mesh)
         ∧ files w !! "optimized_mesh_data.csv"
           = Some (csv_text float_repr optimized)
         ∧ files w !! "poor_quality_elements.csv"
           = Some (csv_text float_repr poor)).
Proof.
  intros Hn.
  destruct (main_with_run n (boot g1 fs1) Hn) as (df & Hgen & Hmain1).
  destruct (main_with_run n (boot g2 fs2) Hn) as (df' & Hgen' & Hmain2).
  rewrite Hgen in Hgen'. injection Hgen' as <-.
  cbv zeta in Hmain1, Hmain2.
  eexists _, _, _, df, (bool_index df (poor_mask df)), (adjusted df).
  split; [exact Hmain1|]. split; [exact Hmain2|].
  cbn [heap files boot l_mesh_data l_poor_elements l_optimized_mesh].
  split; [done|].
  set (h1 := <[fresh (dom (∅ : gmap ref DataFrame)) := df]> ∅).
  set (h2 := <[fresh (dom h1) := bool_index df (poor_mask df)]> h1).
  assert (h1 !! fresh (dom (∅ : gmap ref DataFrame)) = Some df) as H1
    by apply lookup_insert_eq.
  assert (h2 !! fresh (dom h1) = Some (bool_index df (poor_mask df))) as H2
    by apply lookup_insert_eq.
  pose proof (fresh_heap_ne _ _ _ H1) as Hne1.
  pose proof (fresh_heap_ne _ _ _ H2) as Hne2.
  assert (h2 !! fresh (dom (∅ : gmap ref DataFrame)) = Some df) as H12.
  { subst h2. by rewrite lookup_insert_ne. }
  pose proof (fresh_heap_ne _ _ _ H12) as Hne3.
  split; [by rewrite lookup_insert_ne|].
  split; [by rewrite lookup_insert_ne|].
  split; [by rewrite lookup_insert_eq|].
  intros w [-> | ->]; cbn [files];
    (split; [|split]);
    [ by rewrite lookup_insert_ne, lookup_insert_ne, lookup_insert_eq
    | by rewrite lookup_insert_ne, lookup_insert_eq
    | by rewrite lookup_insert_eq
    | by rewrite lookup_insert_ne, lookup_insert_ne, lookup_insert_eq
    | by rewrite lookup_insert_ne, lookup_insert_eq
    | by rewrite lookup_insert_eq ].
Qed.

End Runs.

(** * The properties on concrete runs *)

(** An optimizer whose cached dataset is [df], and one just created, both
    with the two-point generator. *)
Definition cached (df : DataFrame) : World (H := two_point) :=
  mkWorld (Z.of_nat (length df)) (Some 1%positive) {[ 1%positive := df ]}
          (seeded 0) ∅.

Definition new_optimizer (n : Z) : World (H := two_point) :=
  mkWorld n None ∅ (seeded 0) ∅.

Definition example_mesh : DataFrame :=
  [ mkRecord 1 4.2 0.35 0.1 0.9;
    mkRecord 2 2.0 0.8 0.65 0.45;
    mkRecord 3 1.5 0.9 0.2 0.8 ].

(** The example dataset with its adjusted copy as object 2. *)
Definition example_world : World (H := two_point) :=
  mkWorld 3 (Some 1%positive)
          (<[ 2%positive := adjusted example_mesh ]> {[ 1%positive := example_mesh ]})
          (seeded 0) ∅.

(** A dataset whose only [Element_Quality] is zero, with its adjusted copy
    as object 2. *)
Definition zero_quality : DataFrame := [ mkRecord 1 2.0 0.8 0.2 0.0 ].

Definition zero_quality_world : World (H := two_point) :=
  mkWorld 1 (Some 1%positive)
          (<[ 2%positive := adjusted zero_quality ]> {[ 1%positive := zero_quality ]})
          (seeded 0) ∅.

(** An exact text for a float: mantissa and binary exponent. *)
Definition float_text (x : float) : string :=
  match Prim2SF x with
  | S754_zero s => if s then "-0.0" else "0.0"
  | S754_infinity s => if s then "-inf" else "inf"
  | S754_nan => "nan"
  | S754_finite s m e =>
      (if s then "-" else "") +:+ pretty (Z.pos m) +:+ "p" +:+ pretty e
  end.

(** The operations on small inputs. *)

Example clip_example :
  clip 1.0 4.0 [0.5; 2.0; 9.0; nan; infinity; neg_infinity]%float
  = [1.0; 2.0; 4.0; nan; 4.0; 1.0]%float.
Proof. reflexivity. Qed.

Example series_mean_example : series_mean [0.5; nan; 1.5]%float = 1.0%float.
Proof. reflexivity. Qed.

(** Ten times [0.1]: NumPy's eight lanes give [1.0], where adding from left
    to right gives the float below it. *)
Example series_sum_lanes :
  series_sum (repeat 0.1%float 10) = 1.0%float
  ∧ sum_loop 0 (repeat 0.1%float 10) = 0.99999999999999989%float.
Proof. split; reflexivity. Qed.

(** Above 128 values the array is cut in two: 1000 times [0.1]. *)
Example series_sum_cut :
  series_sum (repeat 0.1%float 1000) = 100.00000000000001%float
  ∧ sum_loop 0 (repeat 0.1%float 1000) = 99.999999999998593%float.
Proof. split; vm_compute; reflexivity. Qed.

Example poor_example_mesh :
  bool_index example_mesh (poor_mask example_mesh)
  = [ mkRecord 1 4.2 0.35 0.1 0.9; mkRecord 2 2.0 0.8 0.65 0.45 ].
Proof. reflexivity. Qed.

Example adjusted_example_mesh :
  adjusted example_mesh
  = [ mkRecord 1 (4.2 * 0.7) (0.35 * 1.3) 0.1 0.9;
      mkRecord 2 2.0 0.8 (0.65 * 0.6) (0.45 * 1.25);
      mkRecord 3 1.5 0.9 0.2 0.8 ]%float.
Proof. reflexivity. Qed.

Example adjusted_clamps :
  adjusted [ mkRecord 1 6.0 0.2 1.5 0.3 ] = [ mkRecord 1 4.0 0.3 0.7 0.5 ].
Proof. reflexivity. Qed.

(** A missing value is not a number in a range: pandas leaves it missing. *)
Example adjusted_keeps_nan :
  adjusted [ mkRecord 1 nan 0.8 0.2 0.9 ] = [ mkRecord 1 nan 0.8 0.2 0.9 ].
Proof. reflexivity. Qed.

Example generate_mesh_example :
  (generated (H := two_point) 2).1
  = Some [ mkRecord 1 1.0 0.3 0.0 0.4; mkRecord 2 5.0 1.0 0.8 1.0 ].
Proof. reflexivity. Qed.

Example csv_text_example :
  csv_text float_text [ mkRecord 7 1.0 0.5 0.0 infinity ]
  = ("Element_ID,Aspect_Ratio,Jacobian,Skewness,Element_Quality" +:+ newline
     +:+ "7,4503599627370496p-52,4503599627370496p-53,0.0,inf" +:+ newline).
Proof. reflexivity. Qed.

Lemma analyze_mesh_quality_flags_poor_witness :
  ∃ report poor_elements poor w',
    analyze_mesh_quality (cached example_mesh)
    = (Ok (report, poor_elements), w')
    ∧ heap w' !! poor_elements = Some poor
    ∧ poor = List.filter is_poor example_mesh
    ∧ Poor_Quality_Elements report = length poor.
Proof.
  destruct (analyze_mesh_quality_flags_poor
              (cached example_mesh) 1%positive example_mesh)
    as (report & pe & poor & w' & Hrun & Hp & _ & _ & Hf & _ & Hc & _);
    [reflexivity | reflexivity | discriminate |].
  exists report, pe, poor, w'. repeat split; assumption.
Defined.

Lemma optimize_mesh_within_clamp_ranges_witness :
  ∃ optimized_mesh w' df' r',
    optimize_mesh (cached example_mesh) = (Ok optimized_mesh, w')
    ∧ heap w' !! optimized_mesh = Some df'
    ∧ df' !! 0%nat = Some r'
    ∧ F64.within 1.0 4.0 (Aspect_Ratio r')
    ∧ F64.within 0.3 1.0 (Jacobian r')
    ∧ F64.within 0.0 0.7 (Skewness r')
    ∧ F64.within 0.5 1.0 (Element_Quality r').
Proof.
  destruct (optimize_mesh_within_clamp_ranges
              (cached example_mesh) 1%positive example_mesh)
    as (l & w' & df' & Hrun & Hl & Hlen & Hrange);
    [reflexivity | reflexivity |].
  destruct df' as [|r' df']; [discriminate Hlen|].
  destruct (Hrange 0%nat (mkRecord 1 4.2 0.35 0.1 0.9) r' eq_refl eq_refl)
    as (Ha & Hj & Hs & Hq).
  exists l, w', (r' :: df'), r'.
  repeat split; try assumption;
    first [apply Ha | apply Hj | apply Hs | apply Hq]; reflexivity.
Defined.

Lemma optimize_twice_rescales_only_past_threshold_witness :
  ∃ first second w' df1 df2,
    optimize_twice (cached example_mesh) = (Ok (first, second), w')
    ∧ heap w' !! first = Some df1
    ∧ heap w' !! second = Some df2
    ∧ length df2 = length df1.
Proof.
  destruct (optimize_twice_rescales_only_past_threshold
              (cached example_mesh) 1%positive example_mesh)
    as (l1 & l2 & w' & df1 & df2 & Hrun & H1 & H2 & Hlen & _);
    [reflexivity | reflexivity |].
  exists l1, l2, w', df1, df2. repeat split; assumption.
Defined.

Lemma optimize_mesh_keeps_ids_and_input_witness :
  ∃ optimized_mesh w' df',
    optimize_mesh (cached example_mesh) = (Ok optimized_mesh, w')
    ∧ optimized_mesh ≠ 1%positive
    ∧ heap w' !! optimized_mesh = Some df'
    ∧ map Element_ID df' = [1; 2; 3]
    ∧ heap w' !! 1%positive = Some example_mesh.
Proof.
  destruct (optimize_mesh_keeps_ids_and_input
              (cached example_mesh) 1%positive example_mesh)
    as (l & w' & df' & Hrun & _ & Hne & Hl & _ & Hid & _ & Hin & _);
    [reflexivity | reflexivity |].
  exists l, w', df'. repeat split; assumption.
Defined.


Lemma generate_mesh_fails_iff_negative_witness :
  (∃ w', generate_mesh (new_optimizer (-1)) = (Raise ValueError, w'))
  ∧ (∃ l w' df, generate_mesh (new_optimizer 2) = (Ok l, w')
                ∧ heap w' !! l = Some df ∧ length df = 2%nat).
Proof.
  split.
  - apply (generate_mesh_fails_iff_negative (new_optimizer (-1))).
    simpl. lia.
  - apply (generate_mesh_fails_iff_negative (new_optimizer 2)).
    simpl. lia.
Defined.

Lemma compute_optimization_metrics_zero_mean_witness :
  ∃ metrics w',
    compute_optimization_metrics 2%positive zero_quality_world
    = (Ok metrics, w')
    ∧ PrimFloat.is_finite (Improvement_Percentage metrics) = false.
Proof.
  apply (compute_optimization_metrics_zero_mean
           zero_quality_world 1%positive 2%positive
           zero_quality (adjusted zero_quality));
    reflexivity.
Defined.

Lemma generate_mesh_records_witness :
  ∃ l w' df,
    generate_mesh (new_optimizer 3) = (Ok l, w')
    ∧ heap w' !! l = Some df
    ∧ map Element_ID df = [1; 2; 3].
Proof.
  destruct (generate_mesh_records (new_optimizer 3))
    as (l & w' & df & Hrun & _ & Hl & _ & Hid & _); [simpl; lia|].
  exists l, w', df. repeat split; assumption.
Defined.

Lemma methods_generate_on_demand_witness :
  (analyze_mesh_quality (new_optimizer 3)
   = (generate_mesh ;; analyze_mesh_quality) (new_optimizer 3)
   ∧ ∃ l w', optimize_mesh (new_optimizer 3) = (Ok l, w'))
  ∧ (∃ l' w', optimize_mesh (cached example_mesh) = (Ok l', w')
              ∧ mesh_data w' = Some 1%positive
              ∧ np_random w' = np_random (cached example_mesh)).
Proof.
  destruct (methods_generate_on_demand (new_optimizer 3)) as [Hnone _].
  destruct (Hnone eq_refl) as (Ha & _ & Hok & _).
  destruct (Hok ltac:(simpl; lia)) as [_ Ho].
  destruct (methods_generate_on_demand (cached example_mesh)) as [_ Hsome].
  destruct (Hsome 1%positive example_mesh eq_refl eq_refl)
    as [_ (l' & w' & Hrun & Hmd & _ & Hg)].
  split; [split; assumption|]. exists l', w'. repeat split; assumption.
Defined.

Lemma main_with_reproducible_witness :
  ∃ locals w1 w2,
    main_with (H := two_point) float_text 2 (boot (seeded 0) ∅)
    = (Ok locals, w1)
    ∧ main_with (H := two_point) float_text 2
        (boot (seeded 7) {[ "notes.txt" := "x" ]})
      = (Ok locals, w2)
    ∧ files w1 !! "original_mesh_data.csv"
      = files w2 !! "original_mesh_data.csv".
Proof.
  destruct (main_with_reproducible (H := two_point) float_text 2
              (seeded 0) (seeded 7) ∅ {[ "notes.txt" := "x" ]})
    as (locals & w1 & w2 & mesh & poor & opt & Hrun1 & Hrun2 & _ & _ & _ & _
        & Hfiles); [lia|].
  exists locals, w1, w2. split; [assumption|]. split; [assumption|].
  destruct (Hfiles w1 (or_introl eq_refl)) as [-> _].
  destruct (Hfiles w2 (or_intror eq_refl)) as [-> _].
  reflexivity.
Defined.

(** ** Where the code differs from the specification *)

(** Against C3 as stated: a record inside the generation ranges with
    [Jacobian = 0.3].  The first call scales it to [0.3 * 1.3], still below
    0.5, so the second call scales it again, to [0.3 * 1.3 * 1.3]. *)
Lemma optimize_twice_changes_jacobian :
  ∃ first second w',
    optimize_twice (cached [mkRecord 1 2.0 0.3 0.1 0.9])
    = (Ok (first, second), w')
    ∧ heap w' !! first = Some [mkRecord 1 2.0 (0.3 * 1.3)%float 0.1 0.9]
    ∧ heap w' !! second
      = Some [mkRecord 1 2.0 (0.3 * 1.3 * 1.3)%float 0.1 0.9]
    ∧ PrimFloat.eqb (0.3 * 1.3) (0.3 * 1.3 * 1.3) = false.
Proof.
  destruct (optimize_twice_cached (cached [mkRecord 1 2.0 0.3 0.1 0.9])
              1%positive [mkRecord 1 2.0 0.3 0.1 0.9] eq_refl eq_refl)
    as (first & second & w' & Hrun & _ & H1 & H2).
  exists first, second, w'. split; [exact Hrun|].
  rewrite H1, H2. split; [|split]; vm_compute; reflexivity.
Qed.

(** Against C6 as stated: with an element count of zero [generate_mesh]
    raises nothing and returns an empty table. *)
Lemma generate_mesh_zero_elements_succeeds :
  ∃ l w',
    generate_mesh (new_optimizer 0) = (Ok l, w')
    ∧ mesh_data w' = Some l
    ∧ heap w' !! l = Some [].
Proof.
  eexists _, _. split; [vm_compute; reflexivity|].
  split; vm_compute; reflexivity.
Qed.

(** Against C7 as stated: with a mean [Element_Quality] of zero the
    comparator returns its dictionary, and the improvement in it is
    [+infinity]. *)
Lemma zero_mean_improvement_is_infinite :
  series_mean (column cElement_Quality zero_quality) = 0%float
  ∧ ∃ metrics w',
      compute_optimization_metrics 2%positive zero_quality_world
      = (Ok metrics, w')
      ∧ Improvement_Percentage metrics = infinity.
Proof.
  split; [vm_compute; reflexivity|].
  eexists _, _. split; vm_compute; reflexivity.
Qed.

(** Against C8 as stated: no two runs with one element count differ in
    [Computational_Time_Reduction], whatever the generator and its two
    starting states; line 85 draws from the generator line 13 seeded. *)
Lemma time_reduction_is_seeded :
  ¬ ∃ (R : NumpyRandom) (float_repr : float → string) (n : Z)
      (g1 g2 : rng_state) (fs1 fs2 : gmap string string)
      (r1 r2 : main_locals) (w1 w2 : World),
      main_with float_repr n (boot g1 fs1) = (Ok r1, w1)
      ∧ main_with float_repr n (boot g2 fs2) = (Ok r2, w2)
      ∧ Computational_Time_Reduction (l_optimization_metrics r1)
        ≠ Computational_Time_Reduction (l_optimization_metrics r2).
Proof.
  intros (R & fr & n & g1 & g2 & fs1 & fs2 & r1 & r2 & w1 & w2
          & Hrun1 & Hrun2 & Hne).
  destruct (main_with_same_locals fr n g1 g2 fs1 fs2 r1 r2 w1 w2 Hrun1 Hrun2)
    as [-> _].
  by apply Hne.
Qed.

(** * More of the program *)

(** ** The order of binary64 *)

Section FloatOrder.

(** A key that orders the floats that are not NaN as [SFcompare] does: the
    sign class, then exponent and mantissa (reversed for negative floats). *)
Definition SFkey (s : spec_float) : Z * Z * Z :=
  match s with
  | S754_nan => (0, 0, 0)
  | S754_zero _ => (0, 0, 0)
  | S754_infinity true => (-2, 0, 0)
  | S754_infinity false => (2, 0, 0)
  | S754_finite true m e => (-1, - e, Z.neg m)
  | S754_finite false m e => (1, e, Z.pos m)
  end.

Definition lex3 (a b : Z * Z * Z) : comparison :=
  match a.1.1 ?= b.1.1 with
  | Eq => match a.1.2 ?= b.1.2 with
          | Eq => a.2 ?= b.2
          | c => c
          end
  | c => c
  end.

Lemma SFcompare_key (x y : spec_float) :
  x ≠ S754_nan → y ≠ S754_nan →
  SFcompare x y = Some (lex3 (SFkey x) (SFkey y)).
Proof.
  destruct x as [bx | bx | | bx mx ex], y as [by' | by' | | by' my ey];
    try done; intros _ _; simpl;
    try (by destruct bx); try (by destruct by'); try (by destruct bx, by').
  destruct bx, by'; unfold lex3; simpl; try done.
  rewrite Z.compare_opp, (Z.compare_antisym ex ey).
  change (PosDef.Pos.compare_cont Eq mx my) with (mx ?= my)%positive.
  by destruct (ex ?= ey).
Qed.

Lemma lex3_le_trans (a b c : Z * Z * Z) :
  lex3 a b ≠ Gt → lex3 b c ≠ Gt → lex3 a c ≠ Gt.
Proof.
  destruct a as [[a1 a2] a3], b as [[b1 b2] b3], c as [[c1 c2] c3].
  unfold lex3. simpl.
  destruct (Z.compare_spec a1 b1), (Z.compare_spec b1 c1),
    (Z.compare_spec a1 c1); try lia; try done;
  destruct (Z.compare_spec a2 b2), (Z.compare_spec b2 c2),
    (Z.compare_spec a2 c2); try lia; try done;
  destruct (Z.compare_spec a3 b3), (Z.compare_spec b3 c3),
    (Z.compare_spec a3 c3); try lia; done.
Qed.

Lemma lex3_antisym (a b : Z * Z * Z) : lex3 b a = CompOpp (lex3 a b).
Proof.
  destruct a as [[a1 a2] a3], b as [[b1 b2] b3]. unfold lex3. simpl.
  rewrite (Z.compare_antisym a1 b1), (Z.compare_antisym a2 b2),
    (Z.compare_antisym a3 b3).
  destruct (a1 ?= b1), (a2 ?= b2), (a3 ?= b3); done.
Qed.

Lemma leb_key (x y : float) :
  PrimFloat.is_nan x = false → PrimFloat.is_nan y = false →
  PrimFloat.leb x y = true ↔ lex3 (SFkey (Prim2SF x)) (SFkey (Prim2SF y)) ≠ Gt.
Proof.
  intros Hx%is_nan_false_Prim2SF Hy%is_nan_false_Prim2SF.
  rewrite FloatAxioms.leb_spec. unfold SFleb.
  rewrite (SFcompare_key _ _ Hx Hy).
  by destruct (lex3 _ _).
Qed.

Lemma ltb_key (x y : float) :
  PrimFloat.is_nan x = false → PrimFloat.is_nan y = false →
  PrimFloat.ltb x y = true ↔ lex3 (SFkey (Prim2SF x)) (SFkey (Prim2SF y)) = Lt.
Proof.
  intros Hx%is_nan_false_Prim2SF Hy%is_nan_false_Prim2SF.
  rewrite FloatAxioms.ltb_spec. unfold SFltb.
  rewrite (SFcompare_key _ _ Hx Hy).
  by destruct (lex3 _ _).
Qed.

(** [<=] on floats is transitive. *)
Lemma leb_trans (x y z : float) :
  PrimFloat.leb x y = true → PrimFloat.leb y z = true →
  PrimFloat.leb x z = true.
Proof.
  intros Hxy Hyz.
  destruct (leb_not_nan _ _ Hxy) as [Hx Hy].
  destruct (leb_not_nan _ _ Hyz) as [_ Hz].
  apply (leb_key _ _ Hx Hy) in Hxy. apply (leb_key _ _ Hy Hz) in Hyz.
  apply (leb_key _ _ Hx Hz). by eapply lex3_le_trans.
Qed.

(** Two floats that are not NaN compare one way or the other. *)
Lemma ltb_false_leb (x y : float) :
  PrimFloat.is_nan x = false → PrimFloat.is_nan y = false →
  PrimFloat.ltb x y = false → PrimFloat.leb y x = true.
Proof.
  intros Hx Hy Hlt. apply (leb_key _ _ Hy Hx). rewrite lex3_antisym.
  destruct (lex3 (SFkey (Prim2SF x)) (SFkey (Prim2SF y))) eqn:E; try done.
  apply (ltb_key _ _ Hx Hy) in E. by rewrite E in Hlt.
Qed.

End FloatOrder.

(** ** Counting the poor records *)

Section Counting.

Lemma filter_nil_iff (p : MeshElementRecord → bool) (df : DataFrame) :
  length (List.filter p df) = 0%nat ↔ ∀ r, r ∈ df → p r = false.
Proof.
  induction df as [|r df IH]; simpl.
  { split; [|done]. by intros _ r Hr%elem_of_nil. }
  destruct (p r) eqn:Hp; simpl.
  - split; [done|]. intros Hall.
    specialize (Hall r (list_elem_of_here _ _)). congruence.
  - rewrite IH. split.
    + intros Hall r' [-> | Hr']%elem_of_cons; auto.
    + intros Hall r' Hr'. apply Hall. by apply list_elem_of_further.
Qed.

Lemma filter_all_iff (p : MeshElementRecord → bool) (df : DataFrame) :
  length (List.filter p df) = length df ↔ ∀ r, r ∈ df → p r = true.
Proof.
  induction df as [|r df IH]; simpl.
  { split; [|done]. by intros _ r Hr%elem_of_nil. }
  pose proof (filter_length_le p df) as Hle.
  destruct (p r) eqn:Hp; simpl.
  - split.
    + intros [= Hlen]. pose proof (proj1 IH Hlen) as Hdf.
      intros r' [-> | Hr']%elem_of_cons; auto.
    + intros Hall. f_equal. apply (proj2 IH). intros r' Hr'. apply Hall.
      by apply list_elem_of_further.
  - split; [lia|]. intros Hall.
    specialize (Hall r (list_elem_of_here _ _)). congruence.
Qed.

End Counting.

(** ** Edge cases, frames and compositions of the methods *)

Section Coverage.
Context `{NumpyRandom}.
Variable float_repr : float → string.

(** X1: on an empty dataset [analyze_mesh_quality] raises the
    [ZeroDivisionError] of line 46, whether the empty table was cached or is
    generated by the call itself (an element count of zero); the cached
    table is left as it was. *)
Theorem analyze_mesh_quality_empty_raises (w : World) :
  (∀ l, mesh_data w = Some l → heap w !! l = Some [] →
        ∃ w', analyze_mesh_quality w = (Raise ZeroDivisionError, w')
              ∧ mesh_data w' = Some l ∧ heap w' !! l = Some [])
  ∧ (mesh_data w = None → num_elements w = 0 →
     ∃ w', analyze_mesh_quality w = (Raise ZeroDivisionError, w')).
Proof.
  split.
  - intros l Hmd Hl. rewrite (analyze_mesh_quality_cached w l [] Hmd Hl).
    eexists. split; [reflexivity|].
    cbn [mesh_data heap]. split; [done|].
    rewrite lookup_insert_ne; [done|]. by eapply fresh_heap_ne.
  - intros Hmd Hn.
    assert (analyze_mesh_quality w
            = (generate_mesh ;; analyze_mesh_quality) w) as ->
      by apply (ensure_mesh_generates _ w Hmd).
    destruct (generate_mesh_nonneg w ltac:(lia)) as (l & w1 & df & Hgen & Hmd1 & Hl1 & Hlen).
    rewrite (bind_Ok _ _ _ _ _ Hgen).
    assert (df = []) as ->.
    { apply length_zero_iff_nil. rewrite Hlen, Hn. done. }
    rewrite (analyze_mesh_quality_cached w1 l [] Hmd1 Hl1). by eexists.
Qed.

(** X2: [compute_optimization_metrics] does not generate on demand: with
    nothing cached it raises the [TypeError] of line 76, whatever table it is
    given and whatever the element count, and changes nothing (no sample is
    drawn). *)
Theorem compute_optimization_metrics_needs_mesh (w : World) (optimized_mesh : ref) :
  mesh_data w = None →
  compute_optimization_metrics optimized_mesh w = (Raise TypeError, w).
Proof.
  intros Hmd. unfold compute_optimization_metrics, self_mesh, self_mesh_data.
  unfold mbind, M_bind. by rewrite Hmd.
Qed.

(** X3: the counts of the report: [Total_Elements] is the number of records,
    [Poor_Quality_Elements] never exceeds it, is zero exactly when no record
    meets a threshold condition and equals it exactly when every record
    does. *)
Theorem analyze_mesh_quality_counts (w : World) (l : ref) (df : DataFrame) :
  mesh_data w = Some l →
  heap w !! l = Some df →
  df ≠ [] →
  ∃ report poor_elements w',
    analyze_mesh_quality w = (Ok (report, poor_elements), w')
    ∧ Total_Elements report = length df
    ∧ (Poor_Quality_Elements report ≤ Total_Elements report)%nat
    ∧ (Poor_Quality_Elements report = 0%nat
       ↔ ∀ r, r ∈ df → ¬ meets_a_threshold r)
    ∧ (Poor_Quality_Elements report = Total_Elements report
       ↔ ∀ r, r ∈ df → meets_a_threshold r).
Proof.
  intros Hmd Hl Hne. rewrite (analyze_mesh_quality_cached w l df Hmd Hl).
  rewrite poor_mask_rows, bool_index_filter.
  destruct df as [|r0 df0]; [done|]. set (df := r0 :: df0) in *.
  eexists _, _, _. split; [reflexivity|]. unfold report_of.
  cbn [Total_Elements Poor_Quality_Elements].
  split; [done|]. split; [apply filter_length_le|]. split.
  - rewrite filter_nil_iff. split; intros Hall r Hr.
    + rewrite <- is_poor_spec. rewrite (Hall r Hr). done.
    + specialize (Hall r Hr). rewrite <- is_poor_spec in Hall.
      by destruct (is_poor r).
  - rewrite filter_all_iff. split; intros Hall r Hr.
    + apply is_poor_spec, Hall, Hr.
    + apply is_poor_spec, Hall, Hr.
Qed.

(** A value that meets no threshold condition and is missing or within its
    clamp range passes through the adjuster. *)
Lemma adjust_value_passes (c : Column) (x : float) :
  threshold c x = false →
  F64.isna x = true ∨ F64.within (lower c) (upper c) x →
  adjust_value c x = x.
Proof.
  intros Hth Hx. unfold adjust_value, scale_value. rewrite Hth.
  destruct Hx as [Hnan | Hin]; [by apply clip1_nan | by apply clip1_fixed].
Qed.

(** X4: [optimize_mesh] passes through every attribute that meets no
    threshold condition and is missing or already within its clamp range:
    the adjusted record has the same value there. *)
Theorem optimize_mesh_passes_through (w : World) (l : ref) (df : DataFrame) :
  mesh_data w = Some l →
  heap w !! l = Some df →
  ∃ optimized_mesh w' df',
    optimize_mesh w = (Ok optimized_mesh, w')
    ∧ heap w' !! optimized_mesh = Some df'
    ∧ ∀ i r r' c, df !! i = Some r → df' !! i = Some r' →
        threshold c (row_get c r) = false →
        F64.isna (row_get c r) = true
        ∨ F64.within (lower c) (upper c) (row_get c r) →
        row_get c r' = row_get c r.
Proof.
  intros Hmd Hl. rewrite (optimize_mesh_cached w l df Hmd Hl).
  eexists _, _, (adjusted df). split; [reflexivity|]. cbn [heap].
  rewrite lookup_insert_eq. split; [done|].
  intros i r r' c Hr. rewrite adjusted_lookup, Hr. simpl. intros [= <-] Hth Hx.
  rewrite adjust_row_get. by apply adjust_value_passes.
Qed.

(** A record within the generation ranges that the classifier does not flag
    is within the clamp ranges. *)
Lemma adjust_row_not_poor (r : MeshElementRecord) :
  in_generation_ranges r → is_poor r = false → adjust_row r = r.
Proof.
  destruct r as [i a j s q]. unfold in_generation_ranges, is_poor. simpl.
  intros ([Ha1 Ha2] & [Hj1 Hj2] & [Hs1 Hs2] & [Hq1 Hq2]).
  rewrite !orb_false_iff. intros [[[Ha Hj] Hs] Hq].
  unfold adjust_row. simpl. unfold F64.gt, F64.lt in *.
  f_equal.
  - apply (adjust_value_passes cAspect_Ratio); [done|]. right.
    split; [done|]. simpl.
    apply (leb_trans a 3.5 4.0); [|done].
    apply ltb_false_leb; [done | by apply (leb_not_nan _ _ Ha1) | done].
  - apply (adjust_value_passes cJacobian); [done|]. by right.
  - apply (adjust_value_passes cSkewness); [done|]. right.
    split; [done|]. simpl.
    apply (leb_trans s 0.6 0.7); [|done].
    apply ltb_false_leb; [done | by apply (leb_not_nan _ _ Hs1) | done].
  - apply (adjust_value_passes cElement_Quality); [done|]. right.
    split; [|done]. simpl.
    apply (leb_trans 0.5 0.6 q); [done|].
    apply ltb_false_leb; [by apply (leb_not_nan _ _ Hq1) | done | done].
Qed.

(** X5: on the dataset [generate_mesh] has cached, [optimize_mesh] changes
    only records the classifier flags: a record that meets no threshold
    condition is the same, attribute for attribute, in the adjusted table. *)
Theorem optimize_mesh_changes_only_poor (w : World) :
  0 ≤ num_elements w →
  ∃ mesh w1 optimized_mesh w2 df df',
    generate_mesh w = (Ok mesh, w1)
    ∧ optimize_mesh w1 = (Ok optimized_mesh, w2)
    ∧ heap w2 !! mesh = Some df
    ∧ heap w2 !! optimized_mesh = Some df'
    ∧ ∀ i r, df !! i = Some r → ¬ meets_a_threshold r → df' !! i = Some r.
Proof.
  intros Hn. rewrite generate_mesh_run by done.
  destruct (generated_spec (num_elements w) Hn) as (df & -> & _ & _ & Hrange).
  eexists _, _. 
  set (mesh := fresh (dom (heap w))).
  set (w1 := mkWorld _ _ _ _ _).
  assert (heap w1 !! mesh = Some df) as Hl by apply lookup_insert_eq.
  rewrite (optimize_mesh_cached w1 mesh df eq_refl Hl).
  eexists _, _, df, (adjusted df). split; [reflexivity|].
  split; [reflexivity|]. cbn [heap].
  split. { rewrite lookup_insert_ne; [done|]. by eapply fresh_heap_ne. }
  split. { apply lookup_insert_eq. }
  intros i r Hr Hnp. rewrite adjusted_lookup, Hr. simpl. f_equal.
  apply adjust_row_not_poor.
  - rewrite List.Forall_forall in Hrange. apply Hrange.
    apply list_elem_of_In. by eapply list_elem_of_lookup_2.
  - rewrite <- is_poor_spec in Hnp. by destruct (is_poor r).
Qed.

(** X6: [generate_mesh] reseeds the generator each time, so a later call
    (whatever was drawn or created in between, as long as the element count
    and the first table are untouched) builds a new object with the same
    table as the first and leaves the generator in the same state; the first
    object is left as it was and the cache moves to the new one. *)
Theorem generate_mesh_again (w w1 w1' : World) (first : ref) :
  generate_mesh w = (Ok first, w1) →
  num_elements w1' = num_elements w →
  heap w1' !! first = heap w1 !! first →
  ∃ second w2 df,
    generate_mesh w1' = (Ok second, w2)
    ∧ second ≠ first
    ∧ heap w2 !! first = Some df
    ∧ heap w2 !! second = Some df
    ∧ mesh_data w2 = Some second
    ∧ np_random w2 = np_random w1.
Proof.
  intros Hgen Hn Hfirst.
  destruct (Z.lt_ge_cases (num_elements w) 0) as [Hneg | Hnn].
  { by rewrite generate_mesh_negative in Hgen. }
  rewrite generate_mesh_run in Hgen by done.
  rewrite generate_mesh_run by lia. rewrite Hn.
  destruct (generated_spec (num_elements w) Hnn) as (df & Hdf & _).
  rewrite Hdf in *. apply pair_Ok_inj in Hgen as [<- <-].
  cbn [heap np_random] in *. rewrite lookup_insert_eq in Hfirst.
  pose proof (fresh_heap_ne _ _ _ Hfirst) as Hne.
  eexists _, _, df. split; [reflexivity|]. cbn [heap mesh_data np_random].
  split; [done|]. split; [by rewrite lookup_insert_ne|].
  split; [apply lookup_insert_eq|]. done.
Qed.

(** X7: on a cached dataset [compute_optimization_metrics] returns a
    [Computational_Time_Reduction] between 18 and 22, and only advances the
    generator: the objects, the cache and the files are as they were. *)
Theorem compute_optimization_metrics_time_reduction (w : World) (l lo : ref)
    (original adjusted_df : DataFrame) :
  mesh_data w = Some l →
  heap w !! l = Some original →
  heap w !! lo = Some adjusted_df →
  ∃ metrics w',
    compute_optimization_metrics lo w = (Ok metrics, w')
    ∧ F64.within 18 22 (Computational_Time_Reduction metrics)
    ∧ heap w' = heap w ∧ mesh_data w' = mesh_data w ∧ files w' = files w
    ∧ np_random w' = (sample 18 22 (np_random w)).2.
Proof.
  intros Hmd Hl Hlo.
  rewrite (compute_optimization_metrics_cached w l lo _ _ Hmd Hl Hlo).
  eexists _, _. split; [reflexivity|].
  cbn [Computational_Time_Reduction heap mesh_data files np_random].
  split; [|done].
  apply (sample_range 18 22 (np_random w) eq_refl eq_refl).
Qed.

(** X8: the table of [generate_mesh] holds the draws column by column: the
    [Aspect_Ratio] column is the first N samples after the seed, [Jacobian]
    the next N, then [Skewness], then [Element_Quality]; the generator is
    left where the last draw left it. *)
Theorem generate_mesh_columns (w : World) :
  0 ≤ num_elements w →
  ∃ l w' df,
    generate_mesh w = (Ok l, w')
    ∧ heap w' !! l = Some df
    ∧ let n := Z.to_nat (num_elements w) in
      let a := samples 1.0 5.0 n (seeded 42) in
      let j := samples 0.3 1.0 n a.2 in
      let s := samples 0.0 0.8 n j.2 in
      let q := samples 0.4 1.0 n s.2 in
      column cAspect_Ratio df = a.1
      ∧ column cJacobian df = j.1
      ∧ column cSkewness df = s.1
      ∧ column cElement_Quality df = q.1
      ∧ np_random w' = q.2.
Proof.
  intros Hn. cbv zeta. rewrite generate_mesh_run by done. unfold generated.
  pose proof (samples_length 1 5 (Z.to_nat (num_elements w)) (seeded 42)) as La.
  destruct (samples 1 5 (Z.to_nat (num_elements w)) (seeded 42)) as [a g1]. cbn [fst snd].
  pose proof (samples_length 0.3 1 (Z.to_nat (num_elements w)) g1) as Lj.
  destruct (samples 0.3 1 (Z.to_nat (num_elements w)) g1) as [j g2]. cbn [fst snd].
  pose proof (samples_length 0 0.8 (Z.to_nat (num_elements w)) g2) as Ls.
  destruct (samples 0 0.8 (Z.to_nat (num_elements w)) g2) as [s g3]. cbn [fst snd].
  pose proof (samples_length 0.4 1 (Z.to_nat (num_elements w)) g3) as Lq.
  destruct (samples 0.4 1 (Z.to_nat (num_elements w)) g3) as [q g4]. cbn [fst snd].
  cbn [fst snd] in *.
  destruct (rows_of_columns_Some (np_arange 1 (num_elements w + 1)) a j s q)
    as (df & -> & _ & Ha & Hj & Hs & Hq);
    unfold np_arange; rewrite ?length_seqZ; try lia.
  eexists _, _, df. split; [reflexivity|]. cbn [heap np_random fst snd].
  rewrite lookup_insert_eq. done.
Qed.

(** X9: a run with an element count that is not positive fails before
    anything is written: a negative count with the [ValueError] of the first
    draw, zero with the [ZeroDivisionError] of the analysis; the files are as
    they were. *)
Theorem main_with_fails_without_output (n : Z) (w : World) :
  (n < 0 → ∃ w', main_with float_repr n w = (Raise ValueError, w')
                 ∧ files w' = files w)
  ∧ (n = 0 → ∃ w', main_with float_repr n w = (Raise ZeroDivisionError, w')
                   ∧ files w' = files w).
Proof.
  split; intros Hn; unfold main_with;
    unfold MeshOptimizer_init at 1; unfold mbind at 1, M_bind at 1;
    set (w0 := mkWorld n None (heap w) (np_random w) (files w)).
  - erewrite bind_Raise by exact (generate_mesh_negative w0 Hn).
    by eexists.
  - pose proof (generate_mesh_run w0 ltac:(simpl; lia)) as Hrun.
    destruct (generated_spec n ltac:(lia)) as (df & Hdf & Hlen & _).
    unfold w0 in Hrun at 2 3 4 5 6 7 8.
    cbn [num_elements mesh_data heap np_random files] in Hrun.
    rewrite Hdf in Hrun.
    assert (df = []) as ->.
    { apply length_zero_iff_nil. rewrite Hlen, Hn. done. }
    erewrite bind_Ok by exact Hrun.
    erewrite bind_Raise; cycle 1.
    { erewrite (analyze_mesh_quality_cached _ _ []);
        [reflexivity | reflexivity | apply lookup_insert_eq]. }
    by eexists.
Qed.

(** X10: a run with a positive element count returns and leaves three
    tables: the generated one with that many records, the adjusted one (each
    record scaled and clamped) and the poor ones (the records the classifier
    flags, in order); the report counts them; the three CSV files hold their
    texts, every other file and every object that existed before is as it
    was. *)
Theorem main_with_outputs (n : Z) (w : World) :
  0 < n →
  ∃ locals w' mesh,
    main_with float_repr n w = (Ok locals, w')
    ∧ length mesh = Z.to_nat n
    ∧ Total_Elements (l_analysis locals) = length mesh
    ∧ Poor_Quality_Elements (l_analysis locals)
      = length (List.filter is_poor mesh)
    ∧ heap w' !! l_mesh_data locals = Some mesh
    ∧ heap w' !! l_optimized_mesh locals = Some (map adjust_row mesh)
    ∧ heap w' !! l_poor_elements locals = Some (List.filter is_poor mesh)
    ∧ files w' !! "original_mesh_data.csv" = Some (csv_text float_repr mesh)
    ∧ files w' !! "optimized_mesh_data.csv"
      = Some (csv_text float_repr (map adjust_row mesh))
    ∧ files w' !! "poor_quality_elements.csv"
      = Some (csv_text float_repr (List.filter is_poor mesh))
    ∧ (∀ name, name ≠ "original_mesh_data.csv" →
               name ≠ "optimized_mesh_data.csv" →
               name ≠ "poor_quality_elements.csv" →
               files w' !! name = files w !! name)
    ∧ (∀ k df, heap w !! k = Some df → heap w' !! k = Some df).
Proof.
  intros Hn.
  destruct (main_with_run float_repr n w Hn) as (df & Hgen & Hmain).
  destruct (generated_spec n ltac:(lia)) as (df' & Hgen' & Hlen & _).
  rewrite Hgen in Hgen'. injection Hgen' as <-.
  cbv zeta in Hmain. rewrite poor_mask_rows, bool_index_filter in Hmain.
  rewrite adjusted_rows in Hmain.
  eexists _, _, df. split; [exact Hmain|].
  cbn [heap files l_mesh_data l_poor_elements l_optimized_mesh].
  set (h1 := <[fresh (dom (heap w)) := df]> (heap w)).
  set (h2 := <[fresh (dom h1) := List.filter is_poor df]> h1).
  assert (h1 !! fresh (dom (heap w)) = Some df) as H1
    by apply lookup_insert_eq.
  assert (h2 !! fresh (dom h1) = Some (List.filter is_poor df)) as H2
    by apply lookup_insert_eq.
  pose proof (fresh_heap_ne _ _ _ H1) as Hne1.
  pose proof (fresh_heap_ne _ _ _ H2) as Hne2.
  assert (h2 !! fresh (dom (heap w)) = Some df) as H12.
  { subst h2. by rewrite lookup_insert_ne. }
  pose proof (fresh_heap_ne _ _ _ H12) as Hne3.
  split; [done|]. split; [reflexivity|]. split; [reflexivity|].
  split; [by rewrite lookup_insert_ne|].
  split; [by rewrite lookup_insert_eq|].
  split; [by rewrite lookup_insert_ne|].
  split; [by rewrite lookup_insert_ne, lookup_insert_ne, lookup_insert_eq|].
  split; [by rewrite lookup_insert_ne, lookup_insert_eq|].
  split; [by rewrite lookup_insert_eq|].
  split.
  - intros name N1 N2 N3. by rewrite !lookup_insert_ne.
  - intros k dfk Hk.
    assert (h1 !! k = Some dfk) as Hk1.
    { subst h1. rewrite lookup_insert_ne; [done|]. by eapply fresh_heap_ne. }
    assert (h2 !! k = Some dfk) as Hk2.
    { subst h2. rewrite lookup_insert_ne; [done|]. by eapply fresh_heap_ne. }
    rewrite lookup_insert_ne; [done|]. by eapply fresh_heap_ne.
Qed.

(** With a NaN for the original mean every step of line 79 is a NaN. *)
Lemma improvement_of_nan (o : float) :
  PrimFloat.is_nan (improvement_of o nan) = true.
Proof.
  apply is_nan_Prim2SF. unfold improvement_of.
  rewrite mul_spec, div_spec, sub_spec.
  change (Prim2SF nan) with S754_nan.
  by destruct (Prim2SF o).
Qed.

(** X11: on an empty cached dataset [compute_optimization_metrics] raises
    nothing: the original mean is the NaN pandas gives for an empty column,
    and so is the improvement, whatever adjusted table it is given. *)
Theorem compute_optimization_metrics_empty (w : World) (l lo : ref)
    (adjusted_df : DataFrame) :
  mesh_data w = Some l →
  heap w !! l = Some [] →
  heap w !! lo = Some adjusted_df →
  ∃ metrics w',
    compute_optimization_metrics lo w = (Ok metrics, w')
    ∧ PrimFloat.is_nan (Original_Avg_Quality metrics) = true
    ∧ PrimFloat.is_nan (Improvement_Percentage metrics) = true.
Proof.
  intros Hmd Hl Hlo.
  rewrite (compute_optimization_metrics_cached w l lo _ _ Hmd Hl Hlo).
  eexists _, _. split; [reflexivity|].
  cbn [Original_Avg_Quality Improvement_Percentage].
  change (series_mean (column cElement_Quality [])) with nan.
  split; [done | apply improvement_of_nan].
Qed.

(** X12: the adjusted table is never cached, so the analysis is the same
    before and after [optimize_mesh]: the same report and an equal table of
    poor records (as a new object), still those of the original dataset. *)
Theorem analysis_ignores_optimization (w : World) (l : ref) (df : DataFrame) :
  mesh_data w = Some l →
  heap w !! l = Some df →
  df ≠ [] →
  ∃ report poor1 w1 optimized_mesh w2 poor2 w3 poor,
    analyze_mesh_quality w = (Ok (report, poor1), w1)
    ∧ optimize_mesh w1 = (Ok optimized_mesh, w2)
    ∧ analyze_mesh_quality w2 = (Ok (report, poor2), w3)
    ∧ poor1 ≠ poor2
    ∧ heap w3 !! poor1 = Some poor
    ∧ heap w3 !! poor2 = Some poor
    ∧ poor = List.filter is_poor df.
Proof.
  intros Hmd Hl Hne.
  pose proof (analyze_mesh_quality_cached w l df Hmd Hl) as Hrun1.
  destruct df as [|r0 df0]; [done|]. set (df := r0 :: df0) in *.
  set (poor := bool_index df (poor_mask df)) in *.
  set (p1 := fresh (dom (heap w))) in *.
  set (w1 := mkWorld _ _ (<[p1 := poor]> (heap w)) _ _) in *.
  assert (heap w1 !! l = Some df) as Hl1.
  { subst w1. cbn [heap]. rewrite lookup_insert_ne; [done|].
    by eapply fresh_heap_ne. }
  assert (heap w1 !! p1 = Some poor) as Hp1 by apply lookup_insert_eq.
  pose proof (optimize_mesh_cached w1 l df Hmd Hl1) as Hrun2.
  set (o := fresh (dom (heap w1))) in *.
  set (w2 := mkWorld _ _ (<[o := adjusted df]> (heap w1)) _ _) in *.
  assert (heap w2 !! l = Some df) as Hl2.
  { subst w2. cbn [heap]. rewrite lookup_insert_ne; [done|].
    by eapply fresh_heap_ne. }
  assert (heap w2 !! p1 = Some poor) as Hp2.
  { subst w2. cbn [heap]. rewrite lookup_insert_ne; [done|].
    by eapply fresh_heap_ne. }
  pose proof (analyze_mesh_quality_cached w2 l df Hmd Hl2) as Hrun3.
  cbv iota in Hrun3. fold poor in Hrun3.
  eexists _, p1, w1, o, w2, _, _, poor.
  split; [exact Hrun1|]. split; [exact Hrun2|]. split; [exact Hrun3|].
  cbn [heap].
  pose proof (fresh_heap_ne _ _ _ Hp2) as Hnew.
  split; [done|]. split; [by rewrite lookup_insert_ne|].
  split; [apply lookup_insert_eq|].
  subst poor. by rewrite poor_mask_rows, bool_index_filter.
Qed.

(** X13: calling [optimize_mesh] again on the same optimizer does not
    compound the adjustment: the cache still holds the original, so the
    second call returns a new object with a table equal to the first
    result. *)
Theorem optimize_mesh_does_not_compound (w : World) (l : ref)
    (df : DataFrame) :
  mesh_data w = Some l →
  heap w !! l = Some df →
  ∃ first w1 second w2 df',
    optimize_mesh w = (Ok first, w1)
    ∧ optimize_mesh w1 = (Ok second, w2)
    ∧ first ≠ second
    ∧ heap w2 !! first = Some df'
    ∧ heap w2 !! second = Some df'
    ∧ heap w2 !! l = Some df.
Proof.
  intros Hmd Hl.
  pose proof (optimize_mesh_cached w l df Hmd Hl) as Hrun1.
  set (o1 := fresh (dom (heap w))) in *.
  set (w1 := mkWorld _ _ (<[o1 := adjusted df]> (heap w)) _ _) in *.
  assert (heap w1 !! l = Some df) as Hl1.
  { subst w1. cbn [heap]. rewrite lookup_insert_ne; [done|].
    by eapply fresh_heap_ne. }
  assert (heap w1 !! o1 = Some (adjusted df)) as Ho1 by apply lookup_insert_eq.
  pose proof (optimize_mesh_cached w1 l df Hmd Hl1) as Hrun2.
  eexists o1, w1, _, _, (adjusted df).
  split; [exact Hrun1|]. split; [exact Hrun2|]. cbn [heap].
  pose proof (fresh_heap_ne _ _ _ Ho1) as Hne1.
  pose proof (fresh_heap_ne _ _ _ Hl1) as Hne2.
  split; [done|]. split; [by rewrite lookup_insert_ne|].
  split; [apply lookup_insert_eq | by rewrite lookup_insert_ne].
Qed.

Lemma finite_nonzero_Prim2SF (m : float) :
  PrimFloat.is_finite m = true → PrimFloat.eqb m 0 = false →
  ∃ s mm e, Prim2SF m = S754_finite s mm e.
Proof.
  unfold PrimFloat.is_finite, PrimFloat.is_infinity.
  rewrite negb_true_iff, orb_false_iff.
  rewrite is_nan_false_Prim2SF, !FloatAxioms.eqb_spec, abs_spec.
  change (Prim2SF 0) with (S754_zero false).
  change (Prim2SF infinity) with (S754_infinity false).
  destruct (Prim2SF m) as [b | b | | b mm e]; simpl; try done.
  - by intros [_ ?].
  - by intros [? _].
  - intros _ _. by exists b, mm, e.
Qed.

(** Equal means that are finite and not zero give an improvement of zero. *)
Lemma improvement_of_same (m : float) :
  PrimFloat.is_finite m = true → PrimFloat.eqb m 0 = false →
  PrimFloat.eqb (improvement_of m m) 0 = true.
Proof.
  intros Hfin Hnz.
  destruct (finite_nonzero_Prim2SF m Hfin Hnz) as (s & mm & e & Hm).
  unfold improvement_of.
  rewrite FloatAxioms.eqb_spec, mul_spec, div_spec, sub_spec, Hm.
  unfold SF64sub, SFsub. rewrite Z.sub_diag.
  change (Prim2SF 100) with (S754_finite false 7036874417766400 (-46)).
  change (Prim2SF 0) with (S754_zero false).
  by destruct s.
Qed.

Lemma adjusted_fixed (df : DataFrame) :
  (∀ r, r ∈ df → adjust_row r = r) → adjusted df = df.
Proof.
  intros Hfix. rewrite adjusted_rows. rewrite <- (map_id df) at 2.
  apply map_ext_in. intros r Hr%list_elem_of_In. by apply Hfix.
Qed.

(** X14: when the cached dataset lies within the generation ranges and the
    classifier flags no record, [optimize_mesh] returns an equal table and
    the comparator reports equal averages and, for a mean that is finite and
    not zero, an improvement of zero. *)
Theorem no_poor_record_no_improvement (w : World) (l : ref) (df : DataFrame) :
  mesh_data w = Some l →
  heap w !! l = Some df →
  (∀ r, r ∈ df → in_generation_ranges r ∧ ¬ meets_a_threshold r) →
  PrimFloat.is_finite (series_mean (column cElement_Quality df)) = true →
  PrimFloat.eqb (series_mean (column cElement_Quality df)) 0 = false →
  ∃ optimized_mesh w1 metrics w2,
    optimize_mesh w = (Ok optimized_mesh, w1)
    ∧ heap w1 !! optimized_mesh = Some df
    ∧ compute_optimization_metrics optimized_mesh w1 = (Ok metrics, w2)
    ∧ Optimized_Avg_Quality metrics = Original_Avg_Quality metrics
    ∧ PrimFloat.eqb (Improvement_Percentage metrics) 0 = true.
Proof.
  intros Hmd Hl Hdf Hfin Hnz.
  assert (adjusted df = df) as Hsame.
  { apply adjusted_fixed. intros r Hr. destruct (Hdf r Hr) as [Hrange Hnp].
    apply adjust_row_not_poor; [done|].
    rewrite <- is_poor_spec in Hnp. by destruct (is_poor r). }
  pose proof (optimize_mesh_cached w l df Hmd Hl) as Hrun1.
  rewrite Hsame in Hrun1.
  set (o := fresh (dom (heap w))) in *.
  set (w1 := mkWorld _ _ (<[o := df]> (heap w)) _ _) in *.
  assert (heap w1 !! o = Some df) as Ho by apply lookup_insert_eq.
  assert (heap w1 !! l = Some df) as Hl1.
  { subst w1. cbn [heap]. rewrite lookup_insert_ne; [done|].
    by eapply fresh_heap_ne. }
  pose proof (compute_optimization_metrics_cached w1 l o df df Hmd Hl1 Ho)
    as Hrun2.
  eexists o, w1, _, _.
  split; [exact Hrun1|]. split; [exact Ho|]. split; [exact Hrun2|].
  cbn [Optimized_Avg_Quality Original_Avg_Quality Improvement_Percentage].
  split; [done | by apply improvement_of_same].
Qed.

End Coverage.

(** ** The same properties on concrete runs *)

(** A dataset within the generation ranges in which no record is poor. *)
Definition good_mesh : DataFrame :=
  [ mkRecord 1 2.0 0.8 0.2 0.9; mkRecord 2 3.5 0.5 0.6 0.6 ].

Lemma analyze_mesh_quality_empty_raises_witness :
  (∃ w', analyze_mesh_quality (cached []) = (Raise ZeroDivisionError, w'))
  ∧ (∃ w', analyze_mesh_quality (new_optimizer 0)
           = (Raise ZeroDivisionError, w')).
Proof.
  destruct (analyze_mesh_quality_empty_raises (cached [])) as [Hcached _].
  destruct (Hcached 1%positive eq_refl eq_refl) as (w' & Hrun & _).
  destruct (analyze_mesh_quality_empty_raises (new_optimizer 0)) as [_ Hnone].
  split; [by exists w' | apply Hnone; reflexivity].
Defined.

Lemma compute_optimization_metrics_needs_mesh_witness :
  compute_optimization_metrics 1%positive (new_optimizer 3)
  = (Raise TypeError, new_optimizer 3).
Proof.
  apply (compute_optimization_metrics_needs_mesh (new_optimizer 3) 1%positive).
  reflexivity.
Defined.

Lemma analyze_mesh_quality_counts_witness :
  ∃ report poor_elements w',
    analyze_mesh_quality (cached example_mesh)
    = (Ok (report, poor_elements), w')
    ∧ Total_Elements report = 3%nat
    ∧ (Poor_Quality_Elements report ≤ Total_Elements report)%nat.
Proof.
  destruct (analyze_mesh_quality_counts
              (cached example_mesh) 1%positive example_mesh)
    as (report & pe & w' & Hrun & Htotal & Hle & _);
    [reflexivity | reflexivity | discriminate |].
  exists report, pe, w'. repeat split; assumption.
Defined.

Lemma optimize_mesh_passes_through_witness :
  ∃ optimized_mesh w' df' r',
    optimize_mesh (cached example_mesh) = (Ok optimized_mesh, w')
    ∧ heap w' !! optimized_mesh = Some df'
    ∧ df' !! 2%nat = Some r'
    ∧ Aspect_Ratio r' = 1.5%float.
Proof.
  destruct (optimize_mesh_passes_through
              (cached example_mesh) 1%positive example_mesh)
    as (l & w' & df' & Hrun & Hl & Hpass); [reflexivity | reflexivity |].
  pose proof (optimize_mesh_cached (cached example_mesh) 1%positive
                example_mesh eq_refl eq_refl) as Hrun'.
  rewrite Hrun in Hrun'. apply pair_Ok_inj in Hrun' as [-> ->].
  cbn [heap] in Hl. rewrite lookup_insert_eq in Hl. injection Hl as <-.
  eexists (fresh (dom (heap (cached example_mesh)))), _,
    (adjusted example_mesh), (adjust_row (mkRecord 3 1.5 0.9 0.2 0.8)).
  split; [exact Hrun|]. split; [apply lookup_insert_eq|].
  split; [reflexivity|].
  apply (Hpass 2%nat (mkRecord 3 1.5 0.9 0.2 0.8) _ cAspect_Ratio);
    [reflexivity | reflexivity | reflexivity |].
  right. split; reflexivity.
Defined.

Lemma optimize_mesh_changes_only_poor_witness :
  ∃ mesh w1 optimized_mesh w2 df df',
    generate_mesh (new_optimizer 3) = (Ok mesh, w1)
    ∧ optimize_mesh w1 = (Ok optimized_mesh, w2)
    ∧ heap w2 !! mesh = Some df
    ∧ heap w2 !! optimized_mesh = Some df'.
Proof.
  destruct (optimize_mesh_changes_only_poor (new_optimizer 3))
    as (mesh & w1 & o & w2 & df & df' & Hgen & Hopt & Hl & Hl' & _);
    [simpl; lia|].
  exists mesh, w1, o, w2, df, df'. repeat split; assumption.
Defined.

Lemma generate_mesh_again_witness :
  ∃ second w2 df,
    generate_mesh (generate_mesh (new_optimizer 2)).2 = (Ok second, w2)
    ∧ second ≠ 1%positive
    ∧ heap w2 !! 1%positive = Some df
    ∧ heap w2 !! second = Some df.
Proof.
  destruct (generate_mesh_again (new_optimizer 2)
              (generate_mesh (new_optimizer 2)).2
              (generate_mesh (new_optimizer 2)).2 1%positive)
    as (second & w2 & df & Hrun & Hne & H1 & H2 & _);
    [vm_compute; reflexivity | reflexivity | reflexivity |].
  exists second, w2, df. repeat split; assumption.
Defined.

Lemma compute_optimization_metrics_time_reduction_witness :
  ∃ metrics w',
    compute_optimization_metrics 2%positive zero_quality_world
    = (Ok metrics, w')
    ∧ F64.within 18 22 (Computational_Time_Reduction metrics).
Proof.
  destruct (compute_optimization_metrics_time_reduction
              zero_quality_world 1%positive 2%positive
              zero_quality (adjusted zero_quality))
    as (m & w' & Hrun & Hctr & _);
    [reflexivity | reflexivity | reflexivity |].
  exists m, w'. split; assumption.
Defined.

Lemma generate_mesh_columns_witness :
  ∃ l w' df,
    generate_mesh (new_optimizer 2) = (Ok l, w')
    ∧ heap w' !! l = Some df
    ∧ column cAspect_Ratio df
      = (samples (H := two_point) 1.0 5.0 2 (seeded 42)).1.
Proof.
  destruct (generate_mesh_columns (new_optimizer 2))
    as (l & w' & df & Hrun & Hl & Ha & _); [simpl; lia|].
  exists l, w', df. repeat split; assumption.
Defined.

Lemma main_with_fails_without_output_witness :
  (∃ w', main_with (H := two_point) float_text (-1) (boot (seeded 0) ∅)
         = (Raise ValueError, w') ∧ files w' = ∅)
  ∧ (∃ w', main_with (H := two_point) float_text 0 (boot (seeded 0) ∅)
           = (Raise ZeroDivisionError, w') ∧ files w' = ∅).
Proof.
  split.
  - apply (main_with_fails_without_output (H := two_point) float_text (-1)
             (boot (seeded 0) ∅)). lia.
  - apply (main_with_fails_without_output (H := two_point) float_text 0
             (boot (seeded 0) ∅)). reflexivity.
Defined.

Lemma main_with_outputs_witness :
  ∃ locals w' mesh,
    main_with (H := two_point) float_text 2 (boot (seeded 0) ∅)
    = (Ok locals, w')
    ∧ length mesh = 2%nat
    ∧ files w' !! "original_mesh_data.csv" = Some (csv_text float_text mesh).
Proof.
  destruct (main_with_outputs (H := two_point) float_text 2
              (boot (seeded 0) ∅))
    as (locals & w' & mesh & Hrun & Hlen & _ & _ & _ & _ & _ & Hfile & _);
    [lia|].
  exists locals, w', mesh. repeat split; assumption.
Defined.

Lemma compute_optimization_metrics_empty_witness :
  ∃ metrics w',
    compute_optimization_metrics 1%positive (cached [])
    = (Ok metrics, w')
    ∧ PrimFloat.is_nan (Improvement_Percentage metrics) = true.
Proof.
  destruct (compute_optimization_metrics_empty
              (cached []) 1%positive 1%positive [])
    as (m & w' & Hrun & _ & Hnan);
    [reflexivity | reflexivity | reflexivity |].
  exists m, w'. split; assumption.
Defined.

Lemma analysis_ignores_optimization_witness :
  ∃ report poor1 w1 optimized_mesh w2 poor2 w3,
    analyze_mesh_quality (cached example_mesh) = (Ok (report, poor1), w1)
    ∧ optimize_mesh w1 = (Ok optimized_mesh, w2)
    ∧ analyze_mesh_quality w2 = (Ok (report, poor2), w3).
Proof.
  destruct (analysis_ignores_optimization
              (cached example_mesh) 1%positive example_mesh)
    as (report & p1 & w1 & o & w2 & p2 & w3 & poor & H1 & H2 & H3 & _);
    [reflexivity | reflexivity | discriminate |].
  exists report, p1, w1, o, w2, p2, w3. repeat split; assumption.
Defined.

Lemma optimize_mesh_does_not_compound_witness :
  ∃ first w1 second w2 df',
    optimize_mesh (cached example_mesh) = (Ok first, w1)
    ∧ optimize_mesh w1 = (Ok second, w2)
    ∧ first ≠ second
    ∧ heap w2 !! first = Some df'
    ∧ heap w2 !! second = Some df'.
Proof.
  destruct (optimize_mesh_does_not_compound
              (cached example_mesh) 1%positive example_mesh)
    as (o1 & w1 & o2 & w2 & df' & H1 & H2 & Hne & Ho1 & Ho2 & _);
    [reflexivity | reflexivity |].
  exists o1, w1, o2, w2, df'. repeat split; assumption.
Defined.

Lemma no_poor_record_no_improvement_witness :
  ∃ optimized_mesh w1 metrics w2,
    optimize_mesh (cached good_mesh) = (Ok optimized_mesh, w1)
    ∧ compute_optimization_metrics optimized_mesh w1 = (Ok metrics, w2)
    ∧ PrimFloat.eqb (Improvement_Percentage metrics) 0 = true.
Proof.
  destruct (no_poor_record_no_improvement
              (cached good_mesh) 1%positive good_mesh)
    as (o & w1 & m & w2 & H1 & _ & H2 & _ & Himp);
    [reflexivity | reflexivity | | reflexivity | reflexivity |].
  - intros r Hr. unfold good_mesh in Hr.
    apply elem_of_cons in Hr as [-> | Hr];
      [|apply elem_of_cons in Hr as [-> | Hr]; [|by apply elem_of_nil in Hr]].
    + split; [repeat split; reflexivity|].
      intros [Hc | [Hc | [Hc | Hc]]]; discriminate Hc.
    + split; [repeat split; reflexivity|].
      intros [Hc | [Hc | [Hc | Hc]]]; discriminate Hc.
  - exists o, w1, m, w2. repeat split; assumption.
Defined.
